(** * Sentence embeddings with Siamese RoBERTa networks

    A shallow embedding of the embedding and loss logic of
    [examples/nlp/ipynb/sentence_embeddings_with_sbert.ipynb]:
    [change_range], the two encoders, [RegressionSiamese],
    [TripletSiamese], [TripletLoss] and the two dataset preparations.

    Tensors of floats are idealised as lists of real numbers: a rank-1
    tensor is a [list R], a rank-2 tensor a list of rows.  Rounding is not
    modelled.  The one float effect that is kept is the undefined quotient:
    a division whose divisor is zero yields no real number (TensorFlow
    produces NaN or an infinity there), and the model reports it as
    [Err DivisionByZero]. *)

From Stdlib Require Import Reals Lra Lia List Bool Arith.
From Stdlib Require Import ZArith Permutation.
Import ListNotations.
Local Open Scope R_scope.

(** ** Failures *)

Inductive error : Type :=
| DivisionByZero   (* a quotient with divisor 0: no real value *)
| ShapeError.      (* a tensor of the wrong shape: Python raises *)

Inductive result (A : Type) : Type :=
| Ok (a : A)
| Err (e : error).
Arguments Ok {A} a.
Arguments Err {A} e.

Definition bind {A B : Type} (m : result A) (k : A -> result B) : result B :=
  match m with
  | Ok a => k a
  | Err e => Err e
  end.

Notation "x <- m ;; k" := (bind m (fun x => k))
  (at level 61, m at next level, right associativity).

Fixpoint mapM {A B : Type} (f : A -> result B) (l : list A) : result (list B) :=
  match l with
  | [] => Ok []
  | a :: l' => b <- f a ;; bs <- mapM f l' ;; Ok (b :: bs)
  end.

(** ** Tensor primitives *)

Definition vec := list R.
Definition tensor2 := list vec.

Module tf.

(** Elementwise binary operation on two tensors of the same length
    (TensorFlow refuses operands of different shapes; the shorter length
    is kept here). *)
Fixpoint map2 {A B C : Type} (f : A -> B -> C) (a : list A) (b : list B)
  : list C :=
  match a, b with
  | x :: a', y :: b' => f x y :: map2 f a' b'
  | _, _ => []
  end.

(** [tf.math.reduce_sum] of a rank-1 tensor. *)
Definition reduce_sum (v : vec) : R := fold_right Rplus 0 v.

(** [tf.math.reduce_sum(t, axis=1)]: one sum per row. *)
Definition reduce_sum_axis1 (t : tensor2) : vec := map reduce_sum t.

(** Sum over the first axis of a rank-2 tensor: the rows are added
    up elementwise. *)
Fixpoint reduce_sum_axis0 (t : tensor2) : vec :=
  match t with
  | [] => []
  | row :: rest =>
      match rest with
      | [] => row
      | _ :: _ => map2 Rplus row (reduce_sum_axis0 rest)
      end
  end.

(** [a - b] on rank-2 tensors of one shape. *)
Definition subtract (a b : tensor2) : tensor2 := map2 (map2 Rminus) a b.

(** [tf.math.pow(t, n)] on a rank-2 tensor. *)
Definition pow (t : tensor2) (n : nat) : tensor2 :=
  map (map (fun x => x ^ n)) t.

(** [tf.math.sqrt] on a rank-1 tensor. *)
Definition sqrt (v : vec) : vec := map R_sqrt.sqrt v.

(** [tf.nn.relu] on a rank-1 tensor. *)
Definition relu (v : vec) : vec := map (fun x => Rmax x 0) v.

(** [v + c] with the scalar [c] broadcast. *)
Definition add_scalar (v : vec) (c : R) : vec := map (fun x => x + c) v.

(** A quotient of two floats; no real value when the divisor is 0. *)
Definition divide (x y : R) : result R :=
  if Req_dec_T y 0 then Err DivisionByZero else Ok (x / y).

(** [v / c] with the scalar [c] broadcast: one quotient per element. *)
Definition divide_scalar (v : vec) (c : R) : result vec :=
  mapM (fun x => divide x c) v.

(** [tf.math.reduce_mean(v, axis=0)] of a rank-1 tensor: the sum
    divided by the number of elements. *)
Definition reduce_mean (v : vec) : result R :=
  divide (reduce_sum v) (INR (length v)).

(** [tf.transpose] of a rank-2 tensor with at least one row and one
    column: row [j] of the result is column [j] of the tensor. *)
Fixpoint transpose (t : tensor2) : tensor2 :=
  match t with
  | [] => []
  | row :: rest =>
      match rest with
      | [] => map (fun x => [x]) row
      | _ :: _ => map2 cons row (transpose rest)
      end
  end.

(** Inner product of two rank-1 tensors. *)
Definition dot (a b : vec) : R := reduce_sum (map2 Rmult a b).

(** [tf.matmul(a, b)]: entry (i, j) is the inner product of row i of
    [a] with column j of [b]. *)
Definition matmul (a b : tensor2) : tensor2 :=
  map (fun row => map (dot row) (transpose b)) a.

(** [tf.cast(mask, float)]. *)
Definition cast (b : bool) : R := if b then 1 else 0.

End tf.

(** ** Library layers used by the encoders *)

(** Modelled from the spec: [keras.layers.GlobalAveragePooling1D] is a layer
    of the Keras library, whose body is not part of the notebook.  Called
    with a mask it averages the hidden states over the positions where the
    mask is true: the mask is cast to floats, the inputs are multiplied by
    it, summed over the sequence axis and divided by the sum of the mask.
    [h] holds one row of hidden values per token position and [mask] one
    boolean per token position.  Nothing checks that the mask has a true
    position: the quotient is taken as it comes. *)
Definition GlobalAveragePooling1D (h : tensor2) (mask : list bool)
  : result vec :=
  let mask := map tf.cast mask in
  let inputs := tf.map2 (fun m row => map (fun x => x * m) row) mask h in
  tf.divide_scalar (tf.reduce_sum_axis0 inputs) (tf.reduce_sum mask).

(** Modelled from the spec: [tf.linalg.normalize(x, axis=1)] is a function of
    TensorFlow, whose body is not part of the notebook.  For each row it
    returns the pair of the row divided by its L2 norm and of that norm,
    the norm being the square root of the sum of the squared elements. *)
Definition normalize (x : vec) : result (vec * R) :=
  let norm := sqrt (tf.reduce_sum (map (fun xi => xi * xi) x)) in
  normalized <- tf.divide_scalar x norm ;;
  Ok (normalized, norm).

(** ** The encoders *)

Section Encoder.

(** The pretrained preprocessor and backbone are external: a
    preprocessor turns a sentence into token ids and a padding mask, and
    the backbone turns those into one hidden vector per token position.
    Each sentence of a batch is encoded on its own. *)
Variables sentence token : Type.

Record features : Type := {
  token_ids : list token;
  padding_mask : list bool
}.

Variable preprocessor : sentence -> features.
Variable backbone : features -> tensor2.

(** The encoder of the regression objective: pooled and normalized. *)
Definition roberta_normal_encoder (inputs : sentence) : result vec :=
  let x := preprocessor inputs in
  let h := backbone x in
  embedding <- GlobalAveragePooling1D h (padding_mask x) ;;
  n <- normalize embedding ;;
  let n_embedding := fst n in
  Ok n_embedding.

(** The encoder of the triplet objective: pooled, not normalized. *)
Definition roberta_encoder (input : sentence) : result vec :=
  let x := preprocessor input in
  let h := backbone x in
  embedding <- GlobalAveragePooling1D h (padding_mask x) ;;
  Ok embedding.

End Encoder.

Arguments token_ids {token} _.
Arguments padding_mask {token} _.

(** ** Datasets *)

(** [dataset.batch(n)]: consecutive groups of [n] elements, the last one
    possibly shorter. *)
Fixpoint chunks_fuel {A : Type} (fuel n : nat) (l : list A) : list (list A) :=
  match fuel with
  | O => []
  | S fuel' =>
      match l with
      | [] => []
      | _ :: _ => firstn n l :: chunks_fuel fuel' n (skipn n l)
      end
  end.

Definition batch {X Y : Type} (n : nat) (l : list (X * Y))
  : list (list X * list Y) :=
  map (@split X Y) (chunks_fuel (length l) n l).

(** ** The regression objective *)

Definition TRAIN_BATCH_SIZE : nat := 6.
Definition VALIDATION_BATCH_SIZE : nat := 8.
Definition TRAIN_NUM_BATCHS : nat := 300.
Definition VALIDATION_NUM_BATCHS : nat := 40.

Definition change_range (x : R) : R := (x / 2.5) - 1.

Record stsb_example (sentence : Type) : Type := {
  sentence1 : sentence;
  sentence2 : sentence;
  label : R
}.
Arguments sentence1 {sentence} _.
Arguments sentence2 {sentence} _.
Arguments label {sentence} _.

Definition prepare_dataset {sentence : Type}
    (dataset : list (stsb_example sentence)) (num_batchs batch_size : nat)
  : list (list (sentence * sentence) * tensor2) :=
  let dataset :=
    map (fun z => ((sentence1 z, sentence2 z), [change_range (label z)]))
        dataset in
  let dataset := batch batch_size dataset in
  let dataset := firstn num_batchs dataset in
  dataset.

Section Siamese.

Variable sentence : Type.
Variable encoder : sentence -> result vec.

(** [RegressionSiamese]: the two columns of the input are split, each is
    encoded by the one encoder, and the output is the matrix product of
    the first embeddings with the transposed second embeddings. *)
Definition RegressionSiamese (inputs : list (sentence * sentence))
  : result tensor2 :=
  let '(sen1, sen2) := split inputs in
  u <- mapM encoder sen1 ;;
  v <- mapM encoder sen2 ;;
  let cosine_similarity_scores := tf.matmul u (tf.transpose v) in
  Ok cosine_similarity_scores.

(** [TripletSiamese]: anchors, positives and negatives are encoded by the
    one encoder; the output stacks the two rows of distances. *)
Definition TripletSiamese
    (inputs : list sentence * list sentence * list sentence)
  : result tensor2 :=
  let '(anchor, positive, negative) := inputs in
  ea <- mapM encoder anchor ;;
  ep <- mapM encoder positive ;;
  en <- mapM encoder negative ;;
  let positive_dist :=
    tf.reduce_sum_axis1 (tf.pow (tf.subtract ea ep) 2) in
  let negative_dist :=
    tf.reduce_sum_axis1 (tf.pow (tf.subtract ea en) 2) in
  let positive_dist := tf.sqrt positive_dist in
  let negative_dist := tf.sqrt negative_dist in
  let output := [positive_dist; negative_dist] in
  Ok output.

End Siamese.

Arguments RegressionSiamese {sentence} encoder inputs.
Arguments TripletSiamese {sentence} encoder inputs.

(** ** The triplet objective *)

Definition NUM_TRAIN_BATCHS : nat := 200.
Definition NUM_TEST_BATCHS : nat := 75.

Record wiki_row (sentence : Type) : Type := {
  Sentence1 : sentence;
  Sentence2 : sentence;
  Sentence3 : sentence
}.
Arguments Sentence1 {sentence} _.
Arguments Sentence2 {sentence} _.
Arguments Sentence3 {sentence} _.

(** Stacking a group of triples: one list per position. *)
Fixpoint split3 {A : Type} (l : list (A * A * A))
  : list A * list A * list A :=
  match l with
  | [] => ([], [], [])
  | (a, p, n) :: l' =>
      let '(la, lp, ln) := split3 l' in (a :: la, p :: lp, n :: ln)
  end.

Definition prepare_wiki_data {sentence : Type}
    (dataset : list (wiki_row sentence)) (num_batchs : nat)
  : list ((list sentence * list sentence * list sentence) * list Z) :=
  let dataset :=
    map (fun z => ((Sentence1 z, Sentence2 z, Sentence3 z), 0%Z)) dataset in
  let dataset :=
    map (fun b => (split3 (fst b), snd b)) (batch 6 dataset) in
  let dataset := firstn num_batchs dataset in
  dataset.

Module TripletLoss.

Record t : Type := { margin : R }.

(** [__init__(self, margin=1)]. *)
Definition init (margin : option R) : t :=
  {| margin := match margin with Some m => m | None => 1 end |}.

(** The elementwise part of [call]. *)
Definition losses (self : t) (positive_dist negative_dist : vec) : vec :=
  tf.relu
    (tf.add_scalar (tf.map2 Rminus positive_dist negative_dist)
                   (margin self)).

(** [call(self, y_true, y_pred)]: [y_pred] is unstacked into exactly two
    rows; any other number of rows fails the unpacking. *)
Definition call {Y : Type} (self : t) (y_true : Y) (y_pred : tensor2)
  : result R :=
  match y_pred with
  | [positive_dist; negative_dist] =>
      tf.reduce_mean (losses self positive_dist negative_dist)
  | _ => Err ShapeError
  end.

End TripletLoss.

(** The two models as the notebook instantiates them, each over its
    encoder. *)
Definition roberta_regression_siamese {sentence token : Type}
    (preprocessor : sentence -> features token)
    (backbone : features token -> tensor2)
  : list (sentence * sentence) -> result tensor2 :=
  RegressionSiamese (roberta_normal_encoder sentence token preprocessor backbone).

Definition roberta_triplet_siamese {sentence token : Type}
    (preprocessor : sentence -> features token)
    (backbone : features token -> tensor2)
  : list sentence * list sentence * list sentence -> result tensor2 :=
  TripletSiamese (roberta_encoder sentence token preprocessor backbone).

(** The loss of one batch [(x, y)] of the triplet dataset under the
    current encoder, as [fit] computes it from the compiled loss. *)
Definition triplet_batch_loss {sentence Y : Type}
    (encoder : sentence -> result vec) (loss : TripletLoss.t)
    (xy : (list sentence * list sentence * list sentence) * Y) : result R :=
  y_pred <- TripletSiamese encoder (fst xy) ;;
  TripletLoss.call loss (snd xy) y_pred.

(** ** Notions the properties are stated with *)

(** The Euclidean norm and distance of the specification. *)
Definition euclidean_norm (x : vec) : R := sqrt (tf.dot x x).

Definition euclidean_distance (a b : vec) : R :=
  euclidean_norm (tf.map2 Rminus a b).

(** The three sentences of a triple. *)
Definition anchor_of {A : Type} (t : A * A * A) : A := fst (fst t).
Definition positive_of {A : Type} (t : A * A * A) : A := snd (fst t).
Definition negative_of {A : Type} (t : A * A * A) : A := snd t.

(** An encoder is defined on a sentence when it yields an embedding there;
    [emb] names that embedding. *)
Definition encodes {sentence : Type} (encoder : sentence -> result vec)
    (emb : sentence -> vec) (s : sentence) : Prop :=
  encoder s = Ok (emb s).

(** An encoder for worked examples: a sentence is given as its embedding. *)
Definition given_encoder (s : vec) : result vec := Ok s.

(** The cosine similarity of two vectors. *)
Definition cosine_similarity (x y : vec) : R :=
  tf.dot x y / (euclidean_norm x * euclidean_norm y).

(** A vector is nonzero when one of its elements is. *)
Definition nonzero (x : vec) : Prop := Exists (fun xi => xi <> 0) x.

(** The number of non-padded token positions of a mask. *)
Definition count_true (mask : list bool) : nat :=
  length (filter (fun b => b) mask).

(** The hidden vectors at the non-padded positions, in order. *)
Definition non_padded (h : tensor2) (mask : list bool) : list vec :=
  map snd (filter fst (combine mask h)).

(** The arithmetic mean of vectors of width [D]: coordinate [j] is the sum
    of the coordinates [j] divided by the number of vectors. *)
Definition arithmetic_mean (D : nat) (vs : list vec) : vec :=
  map (fun j => tf.reduce_sum (map (fun v => nth j v 0) vs) / INR (length vs))
      (seq 0 D).

(** A preprocessor and a backbone for worked examples: a sentence is given
    as the list of its hidden vectors, each with its mask bit. *)
Definition given_preprocessor (s : list (vec * bool)) : features vec :=
  {| token_ids := map fst s; padding_mask := map snd s |}.

Definition given_backbone (x : features vec) : tensor2 := token_ids x.

(** Exchanging the two sentences of a pair. *)
Definition swap_pair {A : Type} (p : A * A) : A * A := (snd p, fst p).

(** Two sentences for worked examples, of one non-padded token each. *)
Definition sentence_e1 : list (vec * bool) := [([1; 0], true)].
Definition sentence_e2 : list (vec * bool) := [([0; 1], true)].

(** The regression encoder over the preprocessor and backbone of the
    worked examples. *)
Definition given_normal_encoder : list (vec * bool) -> result vec :=
  roberta_normal_encoder _ _ given_preprocessor given_backbone.

(** Putting three stacked lists back into a list of triples. *)
Fixpoint zip3 {A : Type} (la lp ln : list A) : list (A * A * A) :=
  match la, lp, ln with
  | a :: la', p :: lp', n :: ln' => (a, p, n) :: zip3 la' lp' ln'
  | _, _, _ => []
  end.

(** The sentences of a batch of the triplet dataset. *)
Definition batch_triples {A Y : Type}
    (xy : (list A * list A * list A) * Y) : list (A * A * A) :=
  let '(la, lp, ln) := fst xy in zip3 la lp ln.

(** The semantic search of the notebook: the sentences and the query are
    encoded, the scores are the product of the query embedding with the
    transposed sentence embeddings, and the row of the first query is
    read off. *)
Definition semantic_search {sentence : Type}
    (encoder : sentence -> result vec) (sentences query : list sentence)
  : result vec :=
  sentence_embeddings <- mapM encoder sentences ;;
  query_embedding <- mapM encoder query ;;
  let cosine_similarity_scores :=
    tf.matmul query_embedding (tf.transpose sentence_embeddings) in
  match cosine_similarity_scores with
  | row :: _ => Ok row
  | [] => Err ShapeError
  end.

(** The embedding an encoder yields on a sentence, the empty vector where
    it fails. *)
Definition embedding_of {sentence : Type} (encoder : sentence -> result vec)
    (s : sentence) : vec :=
  match encoder s with
  | Ok n => n
  | Err _ => []
  end.

(** An encoder has width [D] on a sentence when every embedding it
    returns there has [D] elements. *)
Definition has_width {sentence : Type} (encoder : sentence -> result vec)
    (D : nat) (s : sentence) : Prop :=
  forall n, encoder s = Ok n -> length n = D.

(** ** The training loop written from scratch

    The second notebook, [writing_a_custom_training_loop_in_torch]: the
    split of the training data, the data loaders and the loop with its
    log.  The model, the loss and the optimizer are external: one
    training step is a parameter of the loop. *)

(** Python's index of a slice bound on a sequence of length [len]: a
    negative index counts from the end, and an index out of range is
    clipped to the sequence. *)
Definition clip_index (i : Z) (len : nat) : nat :=
  if (i <? 0)%Z
  then Z.to_nat (Z.max 0 (Z.of_nat len + i))
  else Nat.min (Z.to_nat i) len.

(** [l[i:]] and [l[:i]]. *)
Definition slice_from {A : Type} (i : Z) (l : list A) : list A :=
  skipn (clip_index i (length l)) l.

Definition slice_to {A : Type} (i : Z) (l : list A) : list A :=
  firstn (clip_index i (length l)) l.

(** "Reserve 10,000 samples for validation": the four slicings of the
    notebook, giving the training pair and the validation pair. *)
Definition reserve_validation {X Y : Type} (x_train : list X)
    (y_train : list Y)
  : (list X * list Y) * (list X * list Y) :=
  let x_val := slice_from (-10000) x_train in
  let y_val := slice_from (-10000) y_train in
  let x_train := slice_to (-10000) x_train in
  let y_train := slice_to (-10000) y_train in
  ((x_train, y_train), (x_val, y_val)).

(** [torch.utils.data.TensorDataset(x, y)]: the samples are the pairs of
    the rows of the two tensors, which must have as many rows. *)
Definition TensorDataset {X Y : Type} (x : list X) (y : list Y)
  : result (list (X * Y)) :=
  if Nat.eqb (length x) (length y) then Ok (combine x y)
  else Err ShapeError.

(** [torch.utils.data.DataLoader(dataset, batch_size, shuffle)]: one pass
    over the loader visits the samples in the order the sampler gives
    (the order of the dataset without shuffling, a random rearrangement
    with it) and collates them in groups of [batch_size]. *)
Definition DataLoader {X Y : Type} (sampler : list (X * Y) -> list (X * Y))
    (dataset : list (X * Y)) (batch_size : nat)
  : list (list X * list Y) :=
  batch batch_size (sampler dataset).

(** The sampler of a loader without shuffling. *)
Definition sequential {A : Type} (l : list A) : list A := l.

(** [batch_size = 32] and [epochs = 3] of the second notebook. *)
Definition torch_batch_size : nat := 32.
Definition epochs : nat := 3.

(** Python's [enumerate]. *)
Definition enumerate {A : Type} (l : list A) : list (nat * A) :=
  combine (seq 0 (length l)) l.

(** The two lines the loop prints every 100 batches. *)
Inductive log_line : Type :=
| TrainingLoss (step : nat) (loss : R)
| SeenSoFar (samples : nat).

Section TrainingLoop.

(** The state holds the weights of the model and what the optimizer
    keeps.  One training step runs the forward pass and the loss, clears
    the gradients, propagates back and updates the weights; it returns
    the new state and the loss of the batch. *)
Variables state batch_data : Type.
Variable train_step : state -> batch_data -> state * R.

(** The body of the inner loop. *)
Definition loop_body (acc : state * list log_line)
    (step_batch : nat * batch_data) : state * list log_line :=
  let '(st, out) := acc in
  let '(step, b) := step_batch in
  let '(st', loss) := train_step st b in
  if (step mod 100 =? 0)%nat
  then (st', out ++ [TrainingLoss step loss;
                     SeenSoFar ((step + 1) * torch_batch_size)])
  else (st', out).

(** One pass of the inner loop over the batches of the loader. *)
Definition run_epoch (train_dataloader : list batch_data)
    (acc : state * list log_line) : state * list log_line :=
  fold_left loop_body (enumerate train_dataloader) acc.

(** The outer loop, [for epoch in range(epochs)]: the loader is iterated
    anew in every epoch, [train_dataloader epoch] being its batches
    then. *)
Fixpoint run_epochs (train_dataloader : nat -> list batch_data)
    (epoch epochs : nat) (acc : state * list log_line)
  : state * list log_line :=
  match epochs with
  | O => acc
  | S epochs' =>
      run_epochs train_dataloader (S epoch) epochs'
                 (run_epoch (train_dataloader epoch) acc)
  end.

(** The state after the plain sequence of training steps, and the losses
    met on the way. *)
Definition steps_state (batches : list batch_data) (st : state) : state :=
  fold_left (fun s b => fst (train_step s b)) batches st.

Fixpoint steps_losses (batches : list batch_data) (st : state) : list R :=
  match batches with
  | [] => []
  | b :: batches' =>
      snd (train_step st b) :: steps_losses batches' (fst (train_step st b))
  end.

End TrainingLoop.

Arguments loop_body {state batch_data} train_step acc step_batch.
Arguments run_epoch {state batch_data} train_step train_dataloader acc.
Arguments run_epochs {state batch_data} train_step train_dataloader
  epoch epochs acc.
Arguments steps_state {state batch_data} train_step batches st.
Arguments steps_losses {state batch_data} train_step batches st.

(** The lines logged for the losses of one pass, from step [first] on. *)
Fixpoint log_of (first : nat) (losses : list R) : list log_line :=
  match losses with
  | [] => []
  | loss :: losses' =>
      (if (first mod 100 =? 0)%nat
       then [TrainingLoss first loss;
             SeenSoFar ((first + 1) * torch_batch_size)]
       else [])
      ++ log_of (S first) losses'
  end.

(** The number of samples in the first [k] batches of a loader. *)
Definition samples_in {X Y : Type} (k : nat)
    (batches : list (list X * list Y)) : nat :=
  length (concat (map fst (firstn k batches))).

(** * Properties *)

(** ** The result monad *)

Lemma mapM_ok {A B : Type} (f : A -> result B) (g : A -> B) (l : list A) :
  Forall (fun a => f a = Ok (g a)) l -> mapM f l = Ok (map g l).
Proof.
  induction 1 as [|a l Ha _ IH]; simpl.
  - reflexivity.
  - rewrite Ha; simpl. rewrite IH; reflexivity.
Qed.

Lemma mapM_length {A B : Type} (f : A -> result B) (l : list A) (r : list B) :
  mapM f l = Ok r -> length r = length l.
Proof.
  revert r; induction l as [|a l IH]; simpl; intros r H.
  - inversion H; reflexivity.
  - destruct (f a) as [b|e]; simpl in H; [|discriminate].
    destruct (mapM f l) as [bs|e]; simpl in H; [|discriminate].
    inversion H; subst; simpl. f_equal. apply IH; reflexivity.
Qed.

Lemma divide_nonzero (x y : R) : y <> 0 -> tf.divide x y = Ok (x / y).
Proof.
  intros Hy. unfold tf.divide.
  destruct (Req_dec_T y 0) as [E|_]; [contradiction|reflexivity].
Qed.

Lemma divide_zero (x : R) : tf.divide x 0 = Err DivisionByZero.
Proof.
  unfold tf.divide.
  destruct (Req_dec_T 0 0) as [_|N]; [reflexivity|contradiction N; reflexivity].
Qed.

Lemma divide_scalar_nonzero (v : vec) (c : R) :
  c <> 0 -> tf.divide_scalar v c = Ok (map (fun x => x / c) v).
Proof.
  intros Hc. unfold tf.divide_scalar. apply mapM_ok.
  apply Forall_forall; intros x _. apply divide_nonzero; exact Hc.
Qed.

Lemma divide_scalar_zero (v : vec) :
  v <> [] -> tf.divide_scalar v 0 = Err DivisionByZero.
Proof.
  destruct v as [|x v]; [intros H; contradiction H; reflexivity|].
  intros _. unfold tf.divide_scalar; simpl. rewrite divide_zero. reflexivity.
Qed.

(** ** Label rescaling *)

(** C7: [change_range x] is [x / 2.5 - 1]; it sends 0 to -1, 2.5 to 0 and
    5 to 1, and maps the interval [0, 5] onto the interval [-1, 1]. *)
Theorem change_range_spec :
  (forall x, change_range x = x / 2.5 - 1) /\
  change_range 0 = -1 /\
  change_range 2.5 = 0 /\
  change_range 5 = 1 /\
  (forall x, 0 <= x <= 5 -> -1 <= change_range x <= 1) /\
  (forall y, -1 <= y <= 1 -> exists x, 0 <= x <= 5 /\ change_range x = y).
Proof.
  unfold change_range.
  split; [reflexivity|].
  split; [lra|]. split; [lra|]. split; [lra|].
  split.
  - intros x [H0 H5]. split; lra.
  - intros y [Hlo Hhi]. exists (2.5 * (y + 1)). split; [lra|lra].
Qed.

Lemma change_range_spec_witness :
  change_range 5 = 1 /\ -1 <= change_range 4 <= 1 /\
  exists x, 0 <= x <= 5 /\ change_range x = 0.5.
Proof.
  destruct change_range_spec as (_ & _ & _ & H5 & Hin & Honto).
  split; [exact H5|]. split; [apply Hin; lra|apply Honto; lra].
Defined.

(** ** The hinge of the triplet loss *)

Lemma map2_nth {A B C : Type} (f : A -> B -> C) (a : list A) (b : list B)
      (i : nat) (da : A) (db : B) (dc : C) :
  (i < length a)%nat -> (i < length b)%nat ->
  nth i (tf.map2 f a b) dc = f (nth i a da) (nth i b db).
Proof.
  revert b i; induction a as [|x a IH]; intros [|y b] i Ha Hb; simpl in *;
    try lia.
  destruct i as [|i]; [reflexivity|]. apply IH; lia.
Qed.

Lemma map2_map {A B C D : Type} (f : A -> B -> C) (g : C -> D)
      (a : list A) (b : list B) :
  map g (tf.map2 f a b) = tf.map2 (fun x y => g (f x y)) a b.
Proof.
  revert b; induction a as [|x a IH]; intros [|y b]; simpl; try reflexivity.
  f_equal. apply IH.
Qed.

Lemma map2_same_source {A B C D : Type} (f : B -> C -> D) (g : A -> B)
      (h : A -> C) (l : list A) :
  tf.map2 f (map g l) (map h l) = map (fun x => f (g x) (h x)) l.
Proof.
  induction l as [|x l IH]; simpl; [reflexivity|]. f_equal. exact IH.
Qed.

Lemma map2_length {A B C : Type} (f : A -> B -> C) (a : list A) (b : list B) :
  length (tf.map2 f a b) = Nat.min (length a) (length b).
Proof.
  revert b; induction a as [|x a IH]; intros [|y b]; simpl; try reflexivity.
  f_equal. apply IH.
Qed.

(** The three tensor operations of [call] amount to one hinge per example. *)
Lemma losses_elementwise (self : TripletLoss.t) (pd nd : vec) :
  TripletLoss.losses self pd nd =
  tf.map2 (fun p n => Rmax (p - n + TripletLoss.margin self) 0) pd nd.
Proof.
  unfold TripletLoss.losses, tf.relu, tf.add_scalar.
  rewrite map_map. apply map2_map.
Qed.

Lemma losses_nonneg (self : TripletLoss.t) (pd nd : vec) :
  Forall (fun l => 0 <= l) (TripletLoss.losses self pd nd).
Proof.
  rewrite losses_elementwise.
  revert nd; induction pd as [|p pd IH]; intros [|n nd]; simpl;
    constructor.
  - apply Rmax_r.
  - apply IH.
Qed.

(** C5 (amended): the loss of example [i] is
    [max (d_pos - d_neg + margin) 0]; it is 0 when [d_pos < d_neg - margin];
    when [d_pos = d_neg] it is [max margin 0], which is the margin for every
    margin that is not negative; and no loss is negative. *)
Theorem triplet_hinge_values (self : TripletLoss.t) (pd nd : vec) (i : nat) :
  (i < length pd)%nat -> (i < length nd)%nat ->
  let m := TripletLoss.margin self in
  let d_pos := nth i pd 0 in
  let d_neg := nth i nd 0 in
  let l := nth i (TripletLoss.losses self pd nd) 0 in
  l = Rmax (d_pos - d_neg + m) 0 /\
  (d_pos < d_neg - m -> l = 0) /\
  (d_pos = d_neg -> l = Rmax m 0) /\
  (d_pos = d_neg -> 0 <= m -> l = m) /\
  Forall (fun l' => 0 <= l') (TripletLoss.losses self pd nd).
Proof.
  intros Hp Hn m d_pos d_neg l.
  assert (El : l = Rmax (d_pos - d_neg + m) 0).
  { unfold l. rewrite losses_elementwise.
    rewrite (map2_nth _ pd nd i 0 0 0 Hp Hn). reflexivity. }
  split; [exact El|].
  split; [|split; [|split]].
  - intros Hlt. rewrite El. apply Rmax_right. lra.
  - intros Heq. rewrite El. f_equal. lra.
  - intros Heq Hm. rewrite El. rewrite Rmax_left; lra.
  - apply losses_nonneg.
Qed.

Lemma triplet_hinge_values_witness :
  nth 1 (TripletLoss.losses (TripletLoss.init None) [3; 2] [7; 2]) 0 = 1 /\
  nth 0 (TripletLoss.losses (TripletLoss.init None) [3; 2] [7; 2]) 0 = 0.
Proof.
  split.
  - apply (triplet_hinge_values (TripletLoss.init None) [3; 2] [7; 2] 1);
      simpl; try lia; lra.
  - apply (triplet_hinge_values (TripletLoss.init None) [3; 2] [7; 2] 0);
      simpl; try lia; lra.
Defined.

(** C5 as stated fails for a negative margin: with margin -1 and equal
    distances the loss is 0, not the margin. *)
Lemma hinge_negative_margin_counterexample :
  nth 0 (TripletLoss.losses (TripletLoss.init (Some (-1))) [2] [2]) 0 = 0 /\
  nth 0 (TripletLoss.losses (TripletLoss.init (Some (-1))) [2] [2]) 0
    <> TripletLoss.margin (TripletLoss.init (Some (-1))).
Proof.
  assert (E : nth 0 (TripletLoss.losses (TripletLoss.init (Some (-1))) [2] [2]) 0
              = 0).
  { simpl. apply Rmax_right. lra. }
  split; [exact E|]. rewrite E. simpl. lra.
Qed.

(** ** The labels of the triplet dataset *)

Lemma snd_split {A B : Type} (l : list (A * B)) :
  snd (split l) = map snd l.
Proof.
  induction l as [|[a b] l IH]; simpl; [reflexivity|].
  destruct (split l) as [la lb]; simpl in *. f_equal. exact IH.
Qed.

Lemma In_firstn {A : Type} (n : nat) (l : list A) (x : A) :
  In x (firstn n l) -> In x l.
Proof.
  intros H. rewrite <- (firstn_skipn n l). apply in_or_app. left. exact H.
Qed.

Lemma In_skipn {A : Type} (n : nat) (l : list A) (x : A) :
  In x (skipn n l) -> In x l.
Proof.
  intros H. rewrite <- (firstn_skipn n l). apply in_or_app. right. exact H.
Qed.

(** Every group made by [batch] holds elements of the dataset only. *)
Lemma chunks_fuel_incl {A : Type} (fuel n : nat) (l : list A) :
  Forall (fun c => incl c l) (chunks_fuel fuel n l).
Proof.
  revert l; induction fuel as [|fuel IH]; intros l; simpl; [constructor|].
  destruct l as [|a l]; [constructor|].
  constructor.
  - intros x Hx. apply (In_firstn n). exact Hx.
  - specialize (IH (skipn n (a :: l))).
    apply Forall_forall. intros c Hc.
    rewrite Forall_forall in IH. specialize (IH c Hc).
    intros x Hx. apply (In_skipn n). apply IH. exact Hx.
Qed.

(** The fuel of [batch] is enough: the groups, put end to end, are the
    dataset. *)
Lemma chunks_fuel_concat {A : Type} (fuel n : nat) (l : list A) :
  (1 <= n)%nat -> (length l <= fuel)%nat ->
  concat (chunks_fuel fuel n l) = l.
Proof.
  intros Hn. revert l; induction fuel as [|fuel IH]; intros l Hl.
  - destruct l; [reflexivity|cbn in Hl; lia].
  - destruct l as [|a l]; [reflexivity|].
    cbn [chunks_fuel concat]. rewrite IH.
    + apply firstn_skipn.
    + rewrite length_skipn. cbn [length] in *. lia.
Qed.

(** Every label of a batch made by [prepare_dataset] is a one-element
    row holding the rescaled label of an example of the dataset. *)
Lemma prepare_dataset_labels {sentence : Type}
      (dataset : list (stsb_example sentence)) (num_batchs batch_size : nat) :
  Forall (fun xy =>
            Forall (fun y => exists z, In z dataset /\
                                       y = [change_range (label z)])
                   (snd xy))
         (prepare_dataset dataset num_batchs batch_size).
Proof.
  unfold prepare_dataset, batch.
  apply Forall_forall. intros xy Hxy.
  apply In_firstn in Hxy. apply in_map_iff in Hxy.
  destruct Hxy as (c & <- & Hc).
  rewrite snd_split. apply Forall_forall. intros y Hy.
  apply in_map_iff in Hy. destruct Hy as ([x y'] & <- & Hin). simpl.
  match type of Hc with
  | In _ (chunks_fuel ?f ?n ?l) => pose proof (chunks_fuel_incl f n l) as Hall
  end.
  rewrite Forall_forall in Hall. specialize (Hall c Hc _ Hin).
  apply in_map_iff in Hall. destruct Hall as (z & Hz & Hzin).
  exists z. split; [exact Hzin|]. inversion Hz; reflexivity.
Qed.

Lemma prepare_wiki_data_labels {sentence : Type}
      (dataset : list (wiki_row sentence)) (num_batchs : nat) :
  Forall (fun xy => Forall (fun y => y = 0%Z) (snd xy))
         (prepare_wiki_data dataset num_batchs).
Proof.
  unfold prepare_wiki_data, batch.
  apply Forall_forall. intros xy Hxy.
  apply In_firstn in Hxy.
  rewrite map_map in Hxy. apply in_map_iff in Hxy.
  destruct Hxy as (c & <- & Hc). simpl.
  rewrite snd_split. apply Forall_forall. intros y Hy.
  apply in_map_iff in Hy. destruct Hy as ([x y'] & <- & Hin). simpl.
  match type of Hc with
  | In _ (chunks_fuel ?f ?n ?l) => pose proof (chunks_fuel_incl f n l) as Hall
  end.
  rewrite Forall_forall in Hall. specialize (Hall c Hc _ Hin).
  apply in_map_iff in Hall. destruct Hall as (z & Hz & _).
  inversion Hz; reflexivity.
Qed.

(** C10: [TripletLoss.call] gives the same result for any two label
    arguments; every batch made by [prepare_wiki_data] carries labels that
    are all zero, and replacing them by anything leaves the loss of the
    batch as it is. *)
Theorem TripletLoss_call_ignores_y_true :
  (forall (Y1 Y2 : Type) (self : TripletLoss.t) (y1 : Y1) (y2 : Y2)
          (y_pred : tensor2),
      TripletLoss.call self y1 y_pred = TripletLoss.call self y2 y_pred) /\
  (forall (sentence : Type) (encoder : sentence -> result vec)
          (loss : TripletLoss.t) (dataset : list (wiki_row sentence))
          (num_batchs : nat),
      Forall (fun xy =>
                Forall (fun y => y = 0%Z) (snd xy) /\
                forall (Y : Type) (y' : Y),
                  triplet_batch_loss encoder loss (fst xy, y') =
                  triplet_batch_loss encoder loss xy)
             (prepare_wiki_data dataset num_batchs)).
Proof.
  assert (Hcall : forall (Y1 Y2 : Type) (self : TripletLoss.t) (y1 : Y1)
                         (y2 : Y2) (y_pred : tensor2),
             TripletLoss.call self y1 y_pred = TripletLoss.call self y2 y_pred).
  { intros Y1 Y2 self y1 y2 y_pred.
    destruct y_pred as [|pd [|nd [|extra rest]]]; reflexivity. }
  split; [exact Hcall|].
  intros sentence encoder loss dataset num_batchs.
  pose proof (prepare_wiki_data_labels dataset num_batchs) as Hlab.
  rewrite Forall_forall in Hlab. apply Forall_forall. intros xy Hxy.
  split; [apply Hlab; exact Hxy|].
  intros Y y'. unfold triplet_batch_loss; simpl.
  destruct (TripletSiamese encoder (fst xy)) as [y_pred|e]; simpl;
    [apply Hcall|reflexivity].
Qed.

(** ** The triplet model *)

Lemma split3_maps {A : Type} (l : list (A * A * A)) :
  split3 l = (map anchor_of l, map positive_of l, map negative_of l).
Proof.
  induction l as [|[[a p] n] l IH]; simpl; [reflexivity|].
  rewrite IH. reflexivity.
Qed.

Lemma mapM_map_ok {A S : Type} (encoder : S -> result vec) (emb : S -> vec)
      (proj : A -> S) (l : list A) :
  Forall (fun t => encodes encoder emb (proj t)) l ->
  mapM encoder (map proj l) = Ok (map (fun t => emb (proj t)) l).
Proof.
  intros H. rewrite <- (map_map proj emb l). apply mapM_ok.
  apply Forall_forall. intros s Hs. apply in_map_iff in Hs.
  destruct Hs as (t & <- & Ht). rewrite Forall_forall in H. apply (H t Ht).
Qed.

Lemma sum_squares_dot (d : vec) :
  tf.reduce_sum (map (fun x => x ^ 2) d) = tf.dot d d.
Proof.
  unfold tf.dot, tf.reduce_sum.
  induction d as [|x d IH]; [reflexivity|].
  cbn [map tf.map2 fold_right]. rewrite IH. ring.
Qed.

Lemma subtract_self_zero (x : vec) :
  tf.map2 Rminus x x = map (fun _ => 0) x.
Proof.
  induction x as [|a x IH]; simpl; [reflexivity|].
  rewrite IH. f_equal. ring.
Qed.

Lemma dot_zero_zero {A : Type} (x : list A) :
  tf.dot (map (fun _ => 0) x) (map (fun _ => 0) x) = 0.
Proof.
  unfold tf.dot, tf.reduce_sum.
  induction x as [|a x IH]; simpl; [reflexivity|].
  rewrite IH. ring.
Qed.

Lemma euclidean_distance_self (x : vec) : euclidean_distance x x = 0.
Proof.
  unfold euclidean_distance, euclidean_norm.
  rewrite subtract_self_zero, dot_zero_zero. apply sqrt_0.
Qed.

(** The output of the model on a batch of triples: the row of the
    anchor-positive distances and the row of the anchor-negative ones. *)
Lemma TripletSiamese_output {sentence : Type}
      (encoder : sentence -> result vec) (emb : sentence -> vec)
      (triples : list (sentence * sentence * sentence)) :
  Forall (fun t => encodes encoder emb (anchor_of t) /\
                   encodes encoder emb (positive_of t) /\
                   encodes encoder emb (negative_of t)) triples ->
  TripletSiamese encoder (split3 triples) =
  Ok [map (fun t => euclidean_distance (emb (anchor_of t))
                                       (emb (positive_of t))) triples;
      map (fun t => euclidean_distance (emb (anchor_of t))
                                       (emb (negative_of t))) triples].
Proof.
  intros H. rewrite split3_maps. unfold TripletSiamese.
  rewrite (mapM_map_ok encoder emb anchor_of),
          (mapM_map_ok encoder emb positive_of),
          (mapM_map_ok encoder emb negative_of);
    try (eapply Forall_impl; [|exact H]; simpl; tauto).
  simpl. unfold tf.subtract, tf.pow, tf.reduce_sum_axis1, tf.sqrt.
  rewrite !map2_same_source, !map_map.
  do 2 f_equal; [|f_equal];
    apply map_ext; intros t; rewrite sum_squares_dot; reflexivity.
Qed.

Lemma reduce_mean_nonempty (v : vec) :
  v <> [] -> tf.reduce_mean v = Ok (tf.reduce_sum v / INR (length v)).
Proof.
  intros Hv. unfold tf.reduce_mean. apply divide_nonzero.
  apply not_0_INR. destruct v; [contradiction Hv; reflexivity|discriminate].
Qed.

(** C2: on a batch of triples that the shared encoder embeds, the model
    outputs the Euclidean distances [d_pos = ||e_a - e_p||] and
    [d_neg = ||e_a - e_n||] of the embeddings, the default margin is 1,
    the loss is the mean over the batch of
    [max (d_pos - d_neg + margin) 0], and the encoder of the triplet
    objective returns the pooled embedding as it is, not normalized. *)
Theorem triplet_objective {sentence Y : Type}
        (encoder : sentence -> result vec) (emb : sentence -> vec)
        (triples : list (sentence * sentence * sentence)) (y_true : Y) :
  Forall (fun t => encodes encoder emb (anchor_of t) /\
                   encodes encoder emb (positive_of t) /\
                   encodes encoder emb (negative_of t)) triples ->
  let d_pos := fun t =>
    euclidean_distance (emb (anchor_of t)) (emb (positive_of t)) in
  let d_neg := fun t =>
    euclidean_distance (emb (anchor_of t)) (emb (negative_of t)) in
  let hinge := fun m t => Rmax (d_pos t - d_neg t + m) 0 in
  TripletSiamese encoder (split3 triples) =
    Ok [map d_pos triples; map d_neg triples] /\
  TripletLoss.margin (TripletLoss.init None) = 1 /\
  (forall self,
      triplet_batch_loss encoder self (split3 triples, y_true) =
      tf.reduce_mean (map (hinge (TripletLoss.margin self)) triples)) /\
  (triples <> [] ->
   forall self,
      triplet_batch_loss encoder self (split3 triples, y_true) =
      Ok (tf.reduce_sum (map (hinge (TripletLoss.margin self)) triples)
          / INR (length triples))) /\
  (forall (token : Type) (preprocessor : sentence -> features token)
          (backbone : features token -> tensor2) (s : sentence),
      roberta_encoder sentence token preprocessor backbone s =
      GlobalAveragePooling1D (backbone (preprocessor s))
                             (padding_mask (preprocessor s))).
Proof.
  intros H d_pos d_neg hinge.
  pose proof (TripletSiamese_output encoder emb triples H) as Hout.
  fold d_pos d_neg in Hout.
  assert (Hloss : forall self,
             triplet_batch_loss encoder self (split3 triples, y_true) =
             tf.reduce_mean (map (hinge (TripletLoss.margin self)) triples)).
  { intros self. unfold triplet_batch_loss.
    cbn [fst snd]. rewrite Hout. cbn [bind TripletLoss.call].
    rewrite losses_elementwise, map2_same_source. reflexivity. }
  split; [exact Hout|]. split; [reflexivity|]. split; [exact Hloss|].
  split.
  - intros Hne self. rewrite Hloss.
    rewrite reduce_mean_nonempty.
    + rewrite length_map. reflexivity.
    + destruct triples; [contradiction Hne; reflexivity|discriminate].
  - intros token preprocessor backbone s. unfold roberta_encoder.
    destruct (GlobalAveragePooling1D _ _); reflexivity.
Qed.

Lemma triplet_objective_witness :
  triplet_batch_loss given_encoder (TripletLoss.init None)
    (split3 [([1; 2], [1; 2], [4; 6])], 0%Z) =
  Ok (tf.reduce_sum
        (map (fun t => Rmax (euclidean_distance (anchor_of t) (positive_of t)
                             - euclidean_distance (anchor_of t) (negative_of t)
                             + 1) 0)
             [([1; 2], [1; 2], [4; 6])])
      / INR 1).
Proof.
  apply (triplet_objective given_encoder (fun s => s)
                           [([1; 2], [1; 2], [4; 6])] 0%Z).
  - repeat constructor.
  - discriminate.
Defined.

(** C9: when the anchor and the positive of example [i] are the same
    sentence, the model yields [d_pos = 0] for that example, and the loss
    of the example is [max (- d_neg + margin) 0]. *)
Theorem identical_anchor_positive {sentence : Type}
        (encoder : sentence -> result vec) (emb : sentence -> vec)
        (triples : list (sentence * sentence * sentence))
        (i : nat) (a n : sentence) :
  Forall (fun t => encodes encoder emb (anchor_of t) /\
                   encodes encoder emb (positive_of t) /\
                   encodes encoder emb (negative_of t)) triples ->
  nth_error triples i = Some (a, a, n) ->
  exists positive_dist negative_dist,
    TripletSiamese encoder (split3 triples) =
      Ok [positive_dist; negative_dist] /\
    nth_error positive_dist i = Some 0 /\
    nth_error negative_dist i = Some (euclidean_distance (emb a) (emb n)) /\
    forall self,
      nth_error (TripletLoss.losses self positive_dist negative_dist) i =
      Some (Rmax (- euclidean_distance (emb a) (emb n)
                  + TripletLoss.margin self) 0).
Proof.
  intros H Hi.
  eexists _, _. split; [apply (TripletSiamese_output encoder emb triples H)|].
  split; [|split].
  - rewrite (map_nth_error _ _ _ Hi). cbn [anchor_of positive_of fst snd].
    rewrite euclidean_distance_self. reflexivity.
  - rewrite (map_nth_error _ _ _ Hi). reflexivity.
  - intros self. rewrite losses_elementwise, map2_same_source.
    rewrite (map_nth_error _ _ _ Hi).
    cbn [anchor_of positive_of negative_of fst snd].
    rewrite euclidean_distance_self. do 2 f_equal. ring.
Qed.

Lemma identical_anchor_positive_witness :
  exists positive_dist negative_dist,
    TripletSiamese given_encoder
      (split3 [([0; 0], [3; 4], [0; 1]); ([1; 2], [1; 2], [4; 6])]) =
      Ok [positive_dist; negative_dist] /\
    nth_error positive_dist 1 = Some 0 /\
    nth_error negative_dist 1 = Some (euclidean_distance [1; 2] [4; 6]) /\
    forall self,
      nth_error (TripletLoss.losses self positive_dist negative_dist) 1 =
      Some (Rmax (- euclidean_distance [1; 2] [4; 6]
                  + TripletLoss.margin self) 0).
Proof.
  apply (identical_anchor_positive given_encoder (fun s => s)
           [([0; 0], [3; 4], [0; 1]); ([1; 2], [1; 2], [4; 6])] 1
           [1; 2] [4; 6]).
  - repeat constructor.
  - reflexivity.
Defined.

(** ** L2 normalization *)

Lemma dot_self_squares (x : vec) :
  tf.dot x x = tf.reduce_sum (map (fun xi => xi * xi) x).
Proof.
  unfold tf.dot, tf.reduce_sum.
  induction x as [|a x IH]; [reflexivity|].
  cbn [map tf.map2 fold_right]. rewrite IH. reflexivity.
Qed.

Lemma dot_self_nonneg (x : vec) : 0 <= tf.dot x x.
Proof.
  rewrite dot_self_squares. unfold tf.reduce_sum.
  induction x as [|a x IH]; cbn [map fold_right]; [lra|].
  pose proof (Rle_0_sqr a) as Ha. unfold Rsqr in Ha. lra.
Qed.

Lemma dot_self_pos (x : vec) : nonzero x -> 0 < tf.dot x x.
Proof.
  unfold nonzero. induction 1 as [a x Ha|a x _ IH].
  - pose proof (dot_self_nonneg x) as Hx.
    rewrite dot_self_squares in *. unfold tf.reduce_sum in *.
    cbn [map fold_right].
    assert (0 < a * a) by (apply Rsqr_pos_lt; exact Ha). lra.
  - rewrite dot_self_squares in *. unfold tf.reduce_sum in *.
    cbn [map fold_right].
    pose proof (Rle_0_sqr a) as Ha. unfold Rsqr in Ha. lra.
Qed.

Lemma euclidean_norm_pos (x : vec) : nonzero x -> 0 < euclidean_norm x.
Proof.
  intros Hx. unfold euclidean_norm. apply sqrt_lt_R0, dot_self_pos, Hx.
Qed.

Lemma euclidean_norm_sqr (x : vec) :
  euclidean_norm x * euclidean_norm x = tf.dot x x.
Proof. unfold euclidean_norm. apply sqrt_sqrt, dot_self_nonneg. Qed.

Lemma dot_scaled (x y : vec) (c d : R) :
  c <> 0 -> d <> 0 ->
  tf.dot (map (fun xi => xi / c) x) (map (fun yi => yi / d) y) =
  tf.dot x y / (c * d).
Proof.
  intros Hc Hd. unfold tf.dot, tf.reduce_sum.
  revert y; induction x as [|a x IH]; intros [|b y];
    cbn [map tf.map2 fold_right]; try (field; split; assumption).
  rewrite IH. field. split; assumption.
Qed.

(** What [normalize] returns on a nonzero vector. *)
Lemma normalize_nonzero (x : vec) :
  nonzero x ->
  normalize x = Ok (map (fun xi => xi / euclidean_norm x) x, euclidean_norm x).
Proof.
  intros Hx. unfold normalize.
  rewrite <- dot_self_squares. fold (euclidean_norm x).
  rewrite divide_scalar_nonzero; [reflexivity|].
  pose proof (euclidean_norm_pos x Hx). lra.
Qed.

Lemma normalized_unit_norm (z : vec) :
  nonzero z ->
  euclidean_norm (map (fun zi => zi / euclidean_norm z) z) = 1.
Proof.
  intros Hz. pose proof (euclidean_norm_pos z Hz) as Hpos.
  unfold euclidean_norm at 1.
  rewrite dot_scaled by lra.
  rewrite euclidean_norm_sqr.
  replace (tf.dot z z / tf.dot z z) with 1; [apply sqrt_1|].
  pose proof (dot_self_pos z Hz). field. lra.
Qed.

(** C8: on a nonzero vector the normalization returns a vector of unit
    L2 norm that is a positive multiple of the input, and the inner product
    of two normalized vectors is the cosine similarity of the inputs. *)
Theorem normalize_unit_direction (x : vec) :
  nonzero x ->
  exists n norm,
    normalize x = Ok (n, norm) /\
    norm = euclidean_norm x /\
    0 < / norm /\
    n = map (fun xi => / norm * xi) x /\
    euclidean_norm n = 1 /\
    forall y, nonzero y ->
      exists m norm_y,
        normalize y = Ok (m, norm_y) /\
        euclidean_norm m = 1 /\
        tf.dot n m = cosine_similarity x y.
Proof.
  intros Hx. pose proof normalized_unit_norm as Hunit.
  pose proof (euclidean_norm_pos x Hx) as Hpos.
  exists (map (fun xi => xi / euclidean_norm x) x), (euclidean_norm x).
  split; [apply normalize_nonzero; exact Hx|].
  split; [reflexivity|].
  split; [apply Rinv_0_lt_compat; exact Hpos|].
  split; [apply map_ext; intros a; unfold Rdiv; ring|].
  split; [apply Hunit; exact Hx|].
  intros y Hy. pose proof (euclidean_norm_pos y Hy) as Hposy.
  exists (map (fun yi => yi / euclidean_norm y) y), (euclidean_norm y).
  split; [apply normalize_nonzero; exact Hy|].
  split; [apply Hunit; exact Hy|].
  unfold cosine_similarity. apply dot_scaled; lra.
Qed.

Lemma normalize_unit_direction_witness :
  exists n norm,
    normalize [3; 4] = Ok (n, norm) /\
    norm = euclidean_norm [3; 4] /\
    0 < / norm /\
    n = map (fun xi => / norm * xi) [3; 4] /\
    euclidean_norm n = 1 /\
    forall y, nonzero y ->
      exists m norm_y,
        normalize y = Ok (m, norm_y) /\
        euclidean_norm m = 1 /\
        tf.dot n m = cosine_similarity [3; 4] y.
Proof.
  apply (normalize_unit_direction [3; 4]).
  unfold nonzero. apply Exists_cons_hd. lra.
Defined.

(** The regression encoder inherits the property: whenever the pooled
    embedding of a sentence is a nonzero vector, the encoder returns a unit
    vector. *)
Lemma roberta_normal_encoder_unit {sentence token : Type}
      (preprocessor : sentence -> features token)
      (backbone : features token -> tensor2) (s : sentence) (e : vec) :
  GlobalAveragePooling1D (backbone (preprocessor s))
                         (padding_mask (preprocessor s)) = Ok e ->
  nonzero e ->
  exists n, roberta_normal_encoder sentence token preprocessor backbone s = Ok n /\
            euclidean_norm n = 1.
Proof.
  intros He Hnz. unfold roberta_normal_encoder. rewrite He. cbn [bind].
  rewrite (normalize_nonzero e Hnz). cbn [bind fst].
  eexists. split; [reflexivity|apply normalized_unit_norm; exact Hnz].
Qed.

(** ** Mean pooling *)

Lemma map2_seq_nth {A B C : Type} (g : A -> B -> C) (f : nat -> B)
      (row : list A) (d : A) (s : nat) :
  tf.map2 g row (map f (seq s (length row))) =
  map (fun j => g (nth (j - s) row d) (f j)) (seq s (length row)).
Proof.
  revert s; induction row as [|a row IH]; intros s; [reflexivity|].
  cbn [length seq map tf.map2]. rewrite Nat.sub_diag. cbn [nth].
  f_equal. rewrite IH. apply map_ext_in. intros j Hj.
  apply in_seq in Hj. replace (j - s)%nat with (S (j - S s)) by lia.
  reflexivity.
Qed.

Lemma seq_nth_self {A : Type} (row : list A) (d : A) :
  map (fun j => nth j row d) (seq 0 (length row)) = row.
Proof.
  induction row as [|a row IH]; [reflexivity|].
  cbn [length seq map nth]. f_equal.
  rewrite <- seq_shift, map_map. exact IH.
Qed.

(** Summing the rows of a non-empty tensor of width [D] gives, at
    coordinate [j], the sum of column [j]. *)
Lemma reduce_sum_axis0_columns (D : nat) (t : tensor2) :
  t <> [] -> Forall (fun row => length row = D) t ->
  tf.reduce_sum_axis0 t =
  map (fun j => tf.reduce_sum (map (fun row => nth j row 0) t)) (seq 0 D).
Proof.
  intros Hne Hrect. induction t as [|row rest IH]; [contradiction Hne; reflexivity|].
  inversion Hrect as [|? ? Hrow Hrest]; subst.
  destruct rest as [|row' rest'].
  - cbn [tf.reduce_sum_axis0 map tf.reduce_sum fold_right].
    rewrite <- (seq_nth_self row 0) at 1.
    apply map_ext. intros j. ring.
  - change (tf.reduce_sum_axis0 (row :: row' :: rest'))
      with (tf.map2 Rplus row (tf.reduce_sum_axis0 (row' :: rest'))).
    rewrite IH by (try discriminate; exact Hrest).
    rewrite (map2_seq_nth Rplus _ row 0 0).
    apply map_ext. intros j. rewrite Nat.sub_0_r. reflexivity.
Qed.

Lemma mask_sum_count (mask : list bool) :
  tf.reduce_sum (map tf.cast mask) = INR (count_true mask).
Proof.
  unfold tf.reduce_sum, count_true.
  induction mask as [|b mask IH]; [reflexivity|].
  cbn [map fold_right filter]. rewrite IH.
  destruct b; cbn [tf.cast length]; [rewrite S_INR|]; ring.
Qed.

Lemma non_padded_length (h : tensor2) (mask : list bool) :
  length mask = length h -> length (non_padded h mask) = count_true mask.
Proof.
  unfold non_padded, count_true. rewrite length_map.
  revert h; induction mask as [|b mask IH]; intros [|row h] Hlen;
    try discriminate; [reflexivity|].
  cbn [combine filter fst]. injection Hlen as Hlen.
  destruct b; cbn [length]; rewrite (IH h Hlen); reflexivity.
Qed.

(** The masked inputs of the pooling layer. *)
Lemma masked_rows_width (D : nat) (h : tensor2) (mask : list bool) :
  Forall (fun row => length row = D) h ->
  Forall (fun row => length row = D)
         (tf.map2 (fun m row => map (fun x => x * m) row)
                  (map tf.cast mask) h).
Proof.
  intros Hrect. revert mask; induction Hrect as [|row h Hrow _ IH];
    intros [|b mask]; cbn [map tf.map2]; constructor.
  - rewrite length_map. exact Hrow.
  - apply IH.
Qed.

Lemma masked_column_sum (h : tensor2) (mask : list bool) (j : nat) :
  tf.reduce_sum
    (map (fun row => nth j row 0)
         (tf.map2 (fun m row => map (fun x => x * m) row)
                  (map tf.cast mask) h)) =
  tf.reduce_sum (map (fun v => nth j v 0) (non_padded h mask)).
Proof.
  unfold tf.reduce_sum, non_padded.
  revert h; induction mask as [|b mask IH]; intros [|row h]; try reflexivity.
  cbn [map tf.map2 combine filter fst fold_right]. rewrite IH.
  assert (E : nth j (map (fun x => x * tf.cast b) row) 0 =
              nth j row 0 * tf.cast b).
  { rewrite <- (Rmult_0_l (tf.cast b)) at 1.
    apply (map_nth (fun x => x * tf.cast b)). }
  rewrite E. destruct b; cbn [tf.cast map snd fold_right]; ring.
Qed.

Lemma masked_rows_nonempty (h : tensor2) (mask : list bool) :
  h <> [] -> length mask = length h ->
  tf.map2 (fun m row => map (fun x => x * m) row) (map tf.cast mask) h <> [].
Proof.
  destruct h as [|row h]; [intros H; contradiction H; reflexivity|].
  destruct mask as [|b mask]; [discriminate|]. discriminate.
Qed.

(** With at least one non-padded token the pooling layer returns the
    arithmetic mean of the non-padded hidden vectors. *)
Lemma pooling_is_mean (D : nat) (h : tensor2) (mask : list bool) :
  Forall (fun row => length row = D) h ->
  length mask = length h ->
  (1 <= count_true mask)%nat ->
  GlobalAveragePooling1D h mask = Ok (arithmetic_mean D (non_padded h mask)).
Proof.
  intros Hrect Hlen Hk. unfold GlobalAveragePooling1D.
  rewrite mask_sum_count.
  rewrite divide_scalar_nonzero by (apply not_0_INR; lia).
  assert (Hne : h <> []).
  { intros ->. destruct mask; [cbn in Hk; lia|discriminate]. }
  rewrite (reduce_sum_axis0_columns D)
    by (try apply masked_rows_nonempty; try apply masked_rows_width;
        assumption).
  unfold arithmetic_mean. rewrite map_map. apply f_equal.
  apply map_ext. intros j.
  rewrite masked_column_sum, (non_padded_length h mask Hlen). reflexivity.
Qed.

(** With no non-padded token the pooling layer divides by a zero count. *)
Lemma pooling_zero_count (D : nat) (h : tensor2) (mask : list bool) :
  Forall (fun row => length row = D) h ->
  length mask = length h ->
  h <> [] -> (1 <= D)%nat ->
  count_true mask = 0%nat ->
  GlobalAveragePooling1D h mask = Err DivisionByZero.
Proof.
  intros Hrect Hlen Hne HD Hk. unfold GlobalAveragePooling1D.
  rewrite mask_sum_count, Hk. cbn [INR].
  apply divide_scalar_zero.
  rewrite (reduce_sum_axis0_columns D)
    by (try apply masked_rows_nonempty; try apply masked_rows_width;
        assumption).
  destruct D as [|D]; [lia|]. discriminate.
Qed.

(** The pooling layer never fails when the mask has a true position. *)
Lemma pooling_defined (h : tensor2) (mask : list bool) :
  (1 <= count_true mask)%nat ->
  exists e, GlobalAveragePooling1D h mask = Ok e.
Proof.
  intros Hk. unfold GlobalAveragePooling1D.
  rewrite mask_sum_count.
  rewrite divide_scalar_nonzero by (apply not_0_INR; lia).
  eexists; reflexivity.
Qed.

(** Hidden values at padded positions do not reach the masked inputs. *)
Lemma masked_rows_agree (D : nat) (h h' : tensor2) (mask : list bool) :
  Forall (fun row => length row = D) h ->
  Forall (fun row => length row = D) h' ->
  length h' = length h ->
  (forall i, nth i mask false = true -> nth i h' [] = nth i h []) ->
  tf.map2 (fun m row => map (fun x => x * m) row) (map tf.cast mask) h' =
  tf.map2 (fun m row => map (fun x => x * m) row) (map tf.cast mask) h.
Proof.
  intros Hrect. revert h' mask.
  induction Hrect as [|row h Hrow _ IH]; intros [|row' h'] mask Hrect' Hlen Hag;
    try discriminate.
  - destruct mask; reflexivity.
  - destruct mask as [|b mask]; [reflexivity|].
    inversion Hrect' as [|? ? Hrow' Hrest']; subst.
    cbn [map tf.map2]. f_equal.
    + destruct b.
      * rewrite (Hag 0%nat eq_refl : row' = row). reflexivity.
      * cbn [tf.cast].
        rewrite (map_ext (fun x => x * 0) (fun _ => 0)) by (intros; ring).
        rewrite (map_ext (fun x => x * 0) (fun _ => 0) (fun a => Rmult_0_r a) row).
        rewrite !map_const. rewrite Hrow'. reflexivity.
    + apply IH; [exact Hrest'|injection Hlen; auto|].
      intros i Hi. apply (Hag (S i) Hi).
Qed.

(** C4: for a sentence with [k >= 1] non-padded tokens the pooled
    embedding is the arithmetic mean of exactly those [k] hidden vectors,
    and a tensor that differs at padded positions only is pooled to the
    same embedding. *)
Theorem mean_pooling_masked_mean (D : nat) (h : tensor2) (mask : list bool) :
  Forall (fun row => length row = D) h ->
  length mask = length h ->
  (1 <= count_true mask)%nat ->
  GlobalAveragePooling1D h mask = Ok (arithmetic_mean D (non_padded h mask)) /\
  length (non_padded h mask) = count_true mask /\
  forall h',
    Forall (fun row => length row = D) h' ->
    length h' = length h ->
    (forall i, nth i mask false = true -> nth i h' [] = nth i h []) ->
    GlobalAveragePooling1D h' mask = GlobalAveragePooling1D h mask.
Proof.
  intros Hrect Hlen Hk.
  split; [apply pooling_is_mean; assumption|].
  split; [apply non_padded_length; exact Hlen|].
  intros h' Hrect' Hlen' Hag. unfold GlobalAveragePooling1D.
  rewrite (masked_rows_agree D h h' mask Hrect Hrect' Hlen' Hag).
  reflexivity.
Qed.

Lemma mean_pooling_masked_mean_witness :
  GlobalAveragePooling1D [[1; 2]; [3; 4]; [100; 200]] [true; true; false] =
    Ok (arithmetic_mean 2 [[1; 2]; [3; 4]]) /\
  GlobalAveragePooling1D [[1; 2]; [3; 4]; [0; 7]] [true; true; false] =
    GlobalAveragePooling1D [[1; 2]; [3; 4]; [100; 200]] [true; true; false].
Proof.
  assert (Hrect : Forall (fun row : vec => length row = 2%nat)
                         [[1; 2]; [3; 4]; [100; 200]])
    by (repeat constructor).
  destruct (mean_pooling_masked_mean 2 [[1; 2]; [3; 4]; [100; 200]]
              [true; true; false] Hrect eq_refl (le_n_S _ _ (Nat.le_0_l 1)))
    as (Hmean & _ & Hpad).
  split; [exact Hmean|].
  apply Hpad.
  - repeat constructor.
  - reflexivity.
  - intros [|[|[|i]]] Hi; try reflexivity; discriminate Hi.
Defined.

(** C3 (amended): the encoder pools with the mask as the preprocessor
    gives it, without a check of its own.  With at least one non-padded
    token the divisor of the pooling is the positive token count and the
    pooling yields an embedding; with no non-padded token (and a hidden
    tensor that is not empty) the pooling divides by zero, in both
    encoders. *)
Theorem pooling_divides_by_token_count {sentence token : Type}
        (preprocessor : sentence -> features token)
        (backbone : features token -> tensor2) (s : sentence) (D : nat) :
  let x := preprocessor s in
  let h := backbone x in
  let mask := padding_mask x in
  ((1 <= count_true mask)%nat ->
   tf.reduce_sum (map tf.cast mask) = INR (count_true mask) /\
   tf.reduce_sum (map tf.cast mask) <> 0 /\
   exists e, GlobalAveragePooling1D h mask = Ok e /\
             roberta_encoder sentence token preprocessor backbone s = Ok e) /\
  (count_true mask = 0%nat ->
   Forall (fun row => length row = D) h -> length mask = length h ->
   h <> [] -> (1 <= D)%nat ->
   roberta_encoder sentence token preprocessor backbone s
     = Err DivisionByZero /\
   roberta_normal_encoder sentence token preprocessor backbone s
     = Err DivisionByZero).
Proof.
  intros x h mask. split.
  - intros Hk. split; [apply mask_sum_count|].
    split; [rewrite mask_sum_count; apply not_0_INR; lia|].
    destruct (pooling_defined h mask Hk) as (e & He).
    exists e. split; [exact He|].
    unfold roberta_encoder. fold x h mask. rewrite He. reflexivity.
  - intros Hk Hrect Hlen Hne HD.
    pose proof (pooling_zero_count D h mask Hrect Hlen Hne HD Hk) as Hz.
    unfold roberta_encoder, roberta_normal_encoder. fold x h mask.
    rewrite Hz. split; reflexivity.
Qed.

Lemma pooling_divides_by_token_count_witness :
  (exists e,
      GlobalAveragePooling1D [[1; 2]; [3; 4]] [true; false] = Ok e /\
      roberta_encoder _ _ given_preprocessor given_backbone
        [([1; 2], true); ([3; 4], false)] = Ok e) /\
  roberta_normal_encoder _ _ given_preprocessor given_backbone
    [([1; 2], false); ([3; 4], false)] = Err DivisionByZero.
Proof.
  split.
  - apply (pooling_divides_by_token_count given_preprocessor given_backbone
             [([1; 2], true); ([3; 4], false)] 2).
    cbn. lia.
  - apply (pooling_divides_by_token_count given_preprocessor given_backbone
             [([1; 2], false); ([3; 4], false)] 2).
    + reflexivity.
    + repeat constructor.
    + reflexivity.
    + discriminate.
    + lia.
Defined.

(** C3 as stated fails: a sentence whose only token position is padded is
    neither rejected nor guarded; the encoder divides by a zero count. *)
Lemma pooling_all_padded_counterexample :
  count_true (padding_mask (given_preprocessor [([1; 2], false)])) = 0%nat /\
  roberta_encoder _ _ given_preprocessor given_backbone [([1; 2], false)]
    = Err DivisionByZero.
Proof.
  split; [reflexivity|].
  unfold roberta_encoder.
  rewrite (pooling_zero_count 2); try reflexivity; try discriminate.
  - repeat constructor.
  - lia.
Qed.

(** ** The regression model *)

Lemma fst_split {A B : Type} (l : list (A * B)) :
  fst (split l) = map fst l.
Proof.
  induction l as [|[a b] l IH]; simpl; [reflexivity|].
  destruct (split l) as [la lb]; simpl in *. f_equal. exact IH.
Qed.

Lemma split_maps {A B : Type} (l : list (A * B)) :
  split l = (map fst l, map snd l).
Proof.
  rewrite <- fst_split, <- snd_split. destruct (split l); reflexivity.
Qed.

Lemma transpose_singletons (r : vec) :
  r <> [] -> tf.transpose (map (fun x => [x]) r) = [r].
Proof.
  induction r as [|x r IH]; [intros H; contradiction H; reflexivity|].
  intros _. destruct r as [|y r]; [reflexivity|].
  change (tf.transpose (map (fun x => [x]) (x :: y :: r)))
    with (tf.map2 cons [x] (tf.transpose (map (fun x => [x]) (y :: r)))).
  rewrite IH by discriminate. reflexivity.
Qed.

Lemma transpose_cons_columns (r : vec) (t : tensor2) :
  t <> [] -> length r = length t ->
  tf.transpose (tf.map2 cons r t) = r :: tf.transpose t.
Proof.
  revert r; induction t as [|row t IH]; intros r Hne Hlen;
    [contradiction Hne; reflexivity|].
  destruct r as [|x r]; [discriminate|]. injection Hlen as Hlen.
  destruct t as [|row' t].
  - destruct r; [reflexivity|discriminate].
  - destruct r as [|x' r]; [discriminate|].
    change (tf.transpose (tf.map2 cons (x :: x' :: r) (row :: row' :: t)))
      with (tf.map2 cons (x :: row)
              (tf.transpose (tf.map2 cons (x' :: r) (row' :: t)))).
    rewrite IH by (try discriminate; exact Hlen).
    reflexivity.
Qed.

Lemma transpose_length (D : nat) (t : tensor2) :
  t <> [] -> Forall (fun row => length row = D) t ->
  length (tf.transpose t) = D.
Proof.
  intros Hne Hrect. induction t as [|row t IH]; [contradiction Hne; reflexivity|].
  inversion Hrect as [|? ? Hrow Hrest]; subst.
  destruct t as [|row' t].
  - cbn. apply length_map.
  - change (tf.transpose (row :: row' :: t))
      with (tf.map2 cons row (tf.transpose (row' :: t))).
    rewrite map2_length.
    assert (Hl : length (tf.transpose (row' :: t)) = length row)
      by (apply IH; [discriminate|exact Hrest]).
    exact (eq_trans (f_equal (Nat.min (length row)) Hl) (Nat.min_id _)).
Qed.

(** Transposing twice gives the tensor back, for rows of one width
    that is not zero. *)
Lemma transpose_involutive (D : nat) (t : tensor2) :
  (1 <= D)%nat -> Forall (fun row => length row = D) t ->
  tf.transpose (tf.transpose t) = t.
Proof.
  intros HD Hrect. induction t as [|row t IH]; [reflexivity|].
  inversion Hrect as [|? ? Hrow Hrest]; subst.
  destruct t as [|row' t].
  - cbn [tf.transpose]. apply transpose_singletons.
    destruct row; [cbn in HD; lia|discriminate].
  - change (tf.transpose (row :: row' :: t))
      with (tf.map2 cons row (tf.transpose (row' :: t))).
    assert (Hl : length (tf.transpose (row' :: t)) = length row)
      by (apply transpose_length; [discriminate|exact Hrest]).
    rewrite transpose_cons_columns.
    + rewrite IH by exact Hrest. reflexivity.
    + intros E. rewrite E in Hl. cbn in Hl. lia.
    + symmetry. exact Hl.
Qed.

(** The product of [u] with the transpose of [v] holds the inner product
    of every row of [u] with every row of [v]. *)
Lemma matmul_transpose_dots (D : nat) (u v : tensor2) :
  (1 <= D)%nat -> Forall (fun row => length row = D) v ->
  tf.matmul u (tf.transpose v) = map (fun ui => map (tf.dot ui) v) u.
Proof.
  intros HD Hrect. unfold tf.matmul.
  rewrite (transpose_involutive D v HD Hrect). reflexivity.
Qed.

Lemma dot_comm (a b : vec) : tf.dot a b = tf.dot b a.
Proof.
  unfold tf.dot, tf.reduce_sum.
  revert b; induction a as [|x a IH]; intros [|y b]; try reflexivity.
  cbn [tf.map2 fold_right]. rewrite IH. ring.
Qed.

(** The output of the regression model on a batch of [B] pairs: a matrix
    of [B] rows and [B] columns whose entry [(i, j)] is the inner product
    of the first embedding of pair [i] with the second embedding of
    pair [j]. *)
Lemma RegressionSiamese_output {sentence : Type}
      (encoder : sentence -> result vec) (emb : sentence -> vec) (D : nat)
      (pairs : list (sentence * sentence)) :
  (1 <= D)%nat ->
  Forall (fun p => encodes encoder emb (fst p) /\
                   encodes encoder emb (snd p) /\
                   length (emb (snd p)) = D) pairs ->
  RegressionSiamese encoder pairs =
  Ok (map (fun p => map (fun q => tf.dot (emb (fst p)) (emb (snd q))) pairs)
          pairs).
Proof.
  intros HD H. unfold RegressionSiamese. rewrite split_maps.
  rewrite (mapM_map_ok encoder emb fst), (mapM_map_ok encoder emb snd);
    try (eapply Forall_impl; [|exact H]; simpl; tauto).
  cbn [bind]. rewrite (matmul_transpose_dots D).
  - rewrite map_map. f_equal. apply map_ext. intros p. apply map_map.
  - exact HD.
  - apply Forall_forall. intros row Hrow. apply in_map_iff in Hrow.
    destruct Hrow as (q & <- & Hq). rewrite Forall_forall in H.
    apply (H q Hq).
Qed.

(** On a batch of one pair the output is the single inner product, and
    exchanging the two sentences leaves it as it is. *)
Lemma RegressionSiamese_single_pair {sentence : Type}
      (encoder : sentence -> result vec) (a b : sentence) (u v : vec) :
  encoder a = Ok u -> encoder b = Ok v -> v <> [] -> length u = length v ->
  RegressionSiamese encoder [(a, b)] = Ok [[tf.dot u v]] /\
  RegressionSiamese encoder [swap_pair (a, b)] =
  RegressionSiamese encoder [(a, b)].
Proof.
  intros Ha Hb Hv Hlen.
  assert (forall x y, x <> [] -> tf.matmul [y] (tf.transpose [x]) = [[tf.dot y x]]).
  { intros x y Hx. unfold tf.matmul. cbn [tf.transpose].
    rewrite transpose_singletons by exact Hx. reflexivity. }
  unfold RegressionSiamese, swap_pair. cbn [split fst snd mapM].
  rewrite Ha, Hb. cbn [bind]. rewrite !H; try exact Hv.
  - split; [reflexivity|]. rewrite dot_comm. reflexivity.
  - intros ->. destruct v; [apply Hv; reflexivity|discriminate].
Qed.

(** The score of a pair with its own two sentences sits on the diagonal
    of the output. *)
Lemma RegressionSiamese_own_score {sentence : Type}
      (encoder : sentence -> result vec) (emb : sentence -> vec) (D : nat)
      (pairs : list (sentence * sentence)) (i : nat) (a b : sentence) :
  (1 <= D)%nat ->
  Forall (fun p => encodes encoder emb (fst p) /\
                   encodes encoder emb (snd p) /\
                   length (emb (snd p)) = D) pairs ->
  nth_error pairs i = Some (a, b) ->
  exists scores row,
    RegressionSiamese encoder pairs = Ok scores /\
    length scores = length pairs /\
    nth_error scores i = Some row /\
    length row = length pairs /\
    nth_error row i = Some (tf.dot (emb a) (emb b)).
Proof.
  intros HD H Hi. eexists _, _.
  split; [apply (RegressionSiamese_output encoder emb D pairs HD H)|].
  split; [apply length_map|].
  split; [apply (map_nth_error _ _ _ Hi)|].
  split; [apply length_map|].
  apply (map_nth_error (fun q => tf.dot (emb (fst (a, b))) (emb (snd q)))
                       _ _ Hi).
Qed.

(** Exchanging the two sentences of every pair transposes the output:
    entry [(i, j)] becomes the inner product of the first embedding of
    pair [j] with the second embedding of pair [i]. *)
Lemma RegressionSiamese_swapped {sentence : Type}
      (encoder : sentence -> result vec) (emb : sentence -> vec) (D : nat)
      (pairs : list (sentence * sentence)) :
  (1 <= D)%nat ->
  Forall (fun p => encodes encoder emb (fst p) /\
                   encodes encoder emb (snd p) /\
                   length (emb (fst p)) = D) pairs ->
  RegressionSiamese encoder (map swap_pair pairs) =
  Ok (map (fun p => map (fun q => tf.dot (emb (fst q)) (emb (snd p))) pairs)
          pairs).
Proof.
  intros HD H.
  rewrite (RegressionSiamese_output encoder emb D).
  - rewrite map_map. f_equal. apply map_ext. intros p.
    rewrite map_map. apply map_ext. intros q.
    unfold swap_pair; cbn [fst snd]. apply dot_comm.
  - exact HD.
  - apply Forall_forall. intros p Hp. apply in_map_iff in Hp.
    destruct Hp as (q & <- & Hq). rewrite Forall_forall in H.
    unfold swap_pair; cbn [fst snd]. specialize (H q Hq). tauto.
Qed.

(** The encoder of the worked examples on the two example sentences. *)
Lemma normalize_e1 : normalize [1; 0] = Ok ([1; 0], 1).
Proof.
  assert (Hn : euclidean_norm [1; 0] = 1).
  { unfold euclidean_norm, tf.dot, tf.reduce_sum. cbn [tf.map2 fold_right].
    replace (1 * 1 + (0 * 0 + 0)) with 1 by ring. apply sqrt_1. }
  rewrite normalize_nonzero by (apply Exists_cons_hd; lra).
  rewrite Hn. cbn [map]. repeat f_equal; field.
Qed.

Lemma normalize_e2 : normalize [0; 1] = Ok ([0; 1], 1).
Proof.
  assert (Hn : euclidean_norm [0; 1] = 1).
  { unfold euclidean_norm, tf.dot, tf.reduce_sum. cbn [tf.map2 fold_right].
    replace (0 * 0 + (1 * 1 + 0)) with 1 by ring. apply sqrt_1. }
  rewrite normalize_nonzero
    by (apply Exists_cons_tl, Exists_cons_hd; lra).
  rewrite Hn. cbn [map]. repeat f_equal; field.
Qed.

Lemma pooling_single_token (row : vec) :
  GlobalAveragePooling1D [row] [true] = Ok row.
Proof.
  rewrite (pooling_is_mean (length row)); try reflexivity.
  - unfold arithmetic_mean, non_padded, tf.reduce_sum.
    cbn [combine filter fst map snd fold_right length INR].
    f_equal. rewrite <- (seq_nth_self row 0) at 2.
    apply map_ext. intros j. field.
  - repeat constructor.
Qed.

Lemma given_normal_encoder_e1 : given_normal_encoder sentence_e1 = Ok [1; 0].
Proof.
  unfold given_normal_encoder, roberta_normal_encoder, sentence_e1.
  cbn [given_preprocessor given_backbone token_ids padding_mask map fst snd].
  rewrite pooling_single_token. cbn [bind]. rewrite normalize_e1. reflexivity.
Qed.

Lemma given_normal_encoder_e2 : given_normal_encoder sentence_e2 = Ok [0; 1].
Proof.
  unfold given_normal_encoder, roberta_normal_encoder, sentence_e2.
  cbn [given_preprocessor given_backbone token_ids padding_mask map fst snd].
  rewrite pooling_single_token. cbn [bind]. rewrite normalize_e2. reflexivity.
Qed.

Ltac eval_regression :=
  unfold roberta_regression_siamese;
  change (roberta_normal_encoder _ _ given_preprocessor given_backbone)
    with given_normal_encoder;
  unfold RegressionSiamese;
  cbn [split map swap_pair fst snd mapM];
  rewrite ?given_normal_encoder_e1, ?given_normal_encoder_e2;
  cbn [bind];
  unfold tf.matmul, tf.dot, tf.reduce_sum;
  cbn [tf.transpose tf.map2 map fold_right];
  repeat f_equal; ring.

(** C1: on a batch of two pairs the model does not output one score per
    pair: it outputs a matrix of two rows and two columns, whose entries
    off the diagonal compare the first sentence of one pair with the
    second sentence of the other pair. *)
Theorem RegressionSiamese_batch_of_two :
  roberta_regression_siamese given_preprocessor given_backbone
    [(sentence_e1, sentence_e1); (sentence_e2, sentence_e2)] =
  Ok [[1; 0]; [0; 1]].
Proof. eval_regression. Qed.

(** C6: on a batch of two pairs, exchanging the two sentences of each
    pair changes the output of the model. *)
Theorem RegressionSiamese_swap_batch_of_two :
  roberta_regression_siamese given_preprocessor given_backbone
    [(sentence_e1, sentence_e1); (sentence_e2, sentence_e1)] =
    Ok [[1; 1]; [0; 0]] /\
  roberta_regression_siamese given_preprocessor given_backbone
    (map swap_pair [(sentence_e1, sentence_e1); (sentence_e2, sentence_e1)]) =
    Ok [[1; 0]; [1; 0]] /\
  roberta_regression_siamese given_preprocessor given_backbone
    (map swap_pair [(sentence_e1, sentence_e1); (sentence_e2, sentence_e1)]) <>
  roberta_regression_siamese given_preprocessor given_backbone
    [(sentence_e1, sentence_e1); (sentence_e2, sentence_e1)].
Proof.
  assert (H1 : roberta_regression_siamese given_preprocessor given_backbone
                 [(sentence_e1, sentence_e1); (sentence_e2, sentence_e1)] =
               Ok [[1; 1]; [0; 0]]) by eval_regression.
  assert (H2 : roberta_regression_siamese given_preprocessor given_backbone
                 (map swap_pair
                    [(sentence_e1, sentence_e1); (sentence_e2, sentence_e1)]) =
               Ok [[1; 0]; [1; 0]]) by eval_regression.
  split; [exact H1|]. split; [exact H2|].
  rewrite H1, H2. intros E. inversion E as [E']. lra.
Qed.

(** * Further properties of the notebooks *)

(** ** Batching *)

Lemma firstn_plus {A : Type} (a b : nat) (l : list A) :
  firstn (a + b) l = firstn a l ++ firstn b (skipn a l).
Proof.
  revert l; induction a as [|a IH]; intros l; [reflexivity|].
  destruct l as [|x l]; cbn [Nat.add firstn skipn app].
  - rewrite firstn_nil. reflexivity.
  - f_equal. apply IH.
Qed.

(** The first [k] groups, put end to end, are the first [k * n]
    elements. *)
Lemma chunks_fuel_firstn_concat {A : Type} (fuel n k : nat) (l : list A) :
  (1 <= n)%nat -> (length l <= fuel)%nat ->
  concat (firstn k (chunks_fuel fuel n l)) = firstn (k * n) l.
Proof.
  intros Hn. revert l k; induction fuel as [|fuel IH]; intros l k Hl.
  - destruct l; [|cbn in Hl; lia].
    cbn. rewrite !firstn_nil. reflexivity.
  - destruct l as [|a l].
    + cbn [chunks_fuel]. rewrite !firstn_nil. reflexivity.
    + destruct k as [|k]; [reflexivity|].
      cbn [chunks_fuel firstn concat]. rewrite IH.
      * change (S k * n)%nat with (n + k * n)%nat.
        rewrite firstn_plus. reflexivity.
      * rewrite length_skipn. cbn [length] in *. lia.
Qed.

(** Every group holds at least one and at most [n] elements. *)
Lemma chunks_fuel_sizes {A : Type} (fuel n : nat) (l : list A) :
  (1 <= n)%nat ->
  Forall (fun c => (1 <= length c <= n)%nat) (chunks_fuel fuel n l).
Proof.
  intros Hn. revert l; induction fuel as [|fuel IH]; intros l;
    [constructor|].
  destruct l as [|a l]; [constructor|].
  cbn [chunks_fuel]. constructor; [|apply IH].
  rewrite length_firstn. cbn [length]. lia.
Qed.

(** When the list holds [k * n] elements or more, there are at least [k]
    groups and the first [k] are full. *)
Lemma chunks_fuel_full {A : Type} (fuel n k : nat) (l : list A) :
  (1 <= n)%nat -> (length l <= fuel)%nat -> (k * n <= length l)%nat ->
  length (firstn k (chunks_fuel fuel n l)) = k /\
  Forall (fun c => length c = n) (firstn k (chunks_fuel fuel n l)).
Proof.
  intros Hn. revert l k; induction fuel as [|fuel IH]; intros l k Hl Hk.
  - destruct k as [|k]; [split; [reflexivity|constructor]|].
    cbn in Hk. lia.
  - destruct k as [|k]; [split; [reflexivity|constructor]|].
    destruct l as [|a l]; [cbn in Hk; lia|].
    cbn [chunks_fuel firstn].
    destruct (IH (skipn n (a :: l)) k) as [Hlen Hall].
    + rewrite length_skipn. cbn [length] in *. lia.
    + rewrite length_skipn. cbn [Nat.mul] in Hk. lia.
    + split; [cbn [length]; rewrite Hlen; reflexivity|].
      constructor; [|exact Hall].
      rewrite length_firstn. cbn [Nat.mul] in Hk. lia.
Qed.

Lemma length_fst_split {A B : Type} (l : list (A * B)) :
  length (fst (split l)) = length l.
Proof. rewrite fst_split. apply length_map. Qed.

Lemma length_snd_split {A B : Type} (l : list (A * B)) :
  length (snd (split l)) = length l.
Proof. rewrite snd_split. apply length_map. Qed.

Lemma concat_map_map {A B : Type} (f : A -> B) (ls : list (list A)) :
  concat (map (map f) ls) = map f (concat ls).
Proof. symmetry. apply concat_map. Qed.

Lemma map_fst_batch {X Y : Type} (n : nat) (l : list (X * Y)) :
  map fst (batch n l) = map (map fst) (chunks_fuel (length l) n l).
Proof.
  unfold batch. rewrite map_map. apply map_ext. intros c. apply fst_split.
Qed.

Lemma map_snd_batch {X Y : Type} (n : nat) (l : list (X * Y)) :
  map snd (batch n l) = map (map snd) (chunks_fuel (length l) n l).
Proof.
  unfold batch. rewrite map_map. apply map_ext. intros c. apply snd_split.
Qed.

(** What [batch] yields, read group by group. *)
Lemma batch_firstn_fst {X Y : Type} (n k : nat) (l : list (X * Y)) :
  (1 <= n)%nat ->
  concat (map fst (firstn k (batch n l))) = firstn (k * n) (map fst l).
Proof.
  intros Hn. rewrite <- firstn_map, map_fst_batch, firstn_map.
  rewrite concat_map_map.
  rewrite chunks_fuel_firstn_concat by (try exact Hn; apply le_n).
  symmetry. apply firstn_map.
Qed.

Lemma batch_firstn_snd {X Y : Type} (n k : nat) (l : list (X * Y)) :
  (1 <= n)%nat ->
  concat (map snd (firstn k (batch n l))) = firstn (k * n) (map snd l).
Proof.
  intros Hn. rewrite <- firstn_map, map_snd_batch, firstn_map.
  rewrite concat_map_map.
  rewrite chunks_fuel_firstn_concat by (try exact Hn; apply le_n).
  symmetry. apply firstn_map.
Qed.

Lemma In_batch_chunk {X Y : Type} (n k : nat) (l : list (X * Y))
      (xy : list X * list Y) :
  In xy (firstn k (batch n l)) ->
  exists c, In c (chunks_fuel (length l) n l) /\ xy = split c.
Proof.
  intros H. apply In_firstn in H. unfold batch in H.
  apply in_map_iff in H. destruct H as (c & <- & Hc).
  exists c. split; [exact Hc|reflexivity].
Qed.

Lemma batch_full {X Y : Type} (n k : nat) (l : list (X * Y)) :
  (1 <= n)%nat -> (k * n <= length l)%nat ->
  length (firstn k (batch n l)) = k /\
  Forall (fun xy => length (fst xy) = n) (firstn k (batch n l)).
Proof.
  intros Hn Hk. unfold batch. rewrite firstn_map.
  destruct (chunks_fuel_full (length l) n k l Hn (le_n _) Hk) as [Hlen Hall].
  split; [rewrite length_map; exact Hlen|].
  apply Forall_forall. intros xy Hxy. apply in_map_iff in Hxy.
  destruct Hxy as (c & <- & Hc). rewrite length_fst_split.
  rewrite Forall_forall in Hall. apply Hall, Hc.
Qed.

(** ** The similarity dataset *)

(** [prepare_dataset] yields at most [num_batchs] batches; every batch
    holds between one and [batch_size] sentence pairs, with one label row
    of one element per pair; and when the dataset holds
    [num_batchs * batch_size] examples or more, there are exactly
    [num_batchs] batches and all are full. *)
Theorem prepare_dataset_batch_shape {sentence : Type}
        (dataset : list (stsb_example sentence))
        (num_batchs batch_size : nat) :
  (1 <= batch_size)%nat ->
  (length (prepare_dataset dataset num_batchs batch_size) <= num_batchs)%nat /\
  Forall (fun xy =>
            (1 <= length (fst xy) <= batch_size)%nat /\
            length (snd xy) = length (fst xy) /\
            Forall (fun y => length y = 1%nat) (snd xy))
         (prepare_dataset dataset num_batchs batch_size) /\
  ((num_batchs * batch_size <= length dataset)%nat ->
   length (prepare_dataset dataset num_batchs batch_size) = num_batchs /\
   Forall (fun xy => length (fst xy) = batch_size)
          (prepare_dataset dataset num_batchs batch_size)).
Proof.
  intros Hb. split; [|split].
  - unfold prepare_dataset. rewrite length_firstn. lia.
  - pose proof (prepare_dataset_labels dataset num_batchs batch_size) as Hlab.
    rewrite Forall_forall in Hlab.
    apply Forall_forall. intros xy Hxy. specialize (Hlab xy Hxy).
    unfold prepare_dataset in Hxy.
    apply In_batch_chunk in Hxy. destruct Hxy as (c & Hc & ->).
    match type of Hc with
    | In _ (chunks_fuel ?f ?n ?l) =>
        pose proof (chunks_fuel_sizes f n l Hb) as Hsz
    end.
    rewrite Forall_forall in Hsz. specialize (Hsz c Hc).
    rewrite length_fst_split, length_snd_split.
    split; [exact Hsz|]. split; [reflexivity|].
    eapply Forall_impl; [|exact Hlab].
    intros y (z & _ & ->). reflexivity.
  - intros Hfull. unfold prepare_dataset. apply batch_full; [exact Hb|].
    rewrite length_map. exact Hfull.
Qed.

Lemma prepare_dataset_batch_shape_witness :
  length (prepare_dataset
            [ {| sentence1 := 1%nat; sentence2 := 2%nat; label := 5 |};
              {| sentence1 := 3%nat; sentence2 := 4%nat; label := 0 |};
              {| sentence1 := 5%nat; sentence2 := 6%nat; label := 2.5 |} ]
            1 2) = 1%nat.
Proof.
  apply (prepare_dataset_batch_shape
           [ {| sentence1 := 1%nat; sentence2 := 2%nat; label := 5 |};
             {| sentence1 := 3%nat; sentence2 := 4%nat; label := 0 |};
             {| sentence1 := 5%nat; sentence2 := 6%nat; label := 2.5 |} ]
           1 2).
  - lia.
  - cbn. lia.
Defined.

(** [prepare_dataset] keeps the first [num_batchs * batch_size] examples
    of the dataset, in their order: the sentence pairs of its batches, put
    end to end, are those examples' pairs, and the labels are their
    rescaled labels. *)
Theorem prepare_dataset_keeps_prefix {sentence : Type}
        (dataset : list (stsb_example sentence))
        (num_batchs batch_size : nat) :
  (1 <= batch_size)%nat ->
  concat (map fst (prepare_dataset dataset num_batchs batch_size)) =
    map (fun z => (sentence1 z, sentence2 z))
        (firstn (num_batchs * batch_size) dataset) /\
  concat (map snd (prepare_dataset dataset num_batchs batch_size)) =
    map (fun z => [change_range (label z)])
        (firstn (num_batchs * batch_size) dataset).
Proof.
  intros Hb. unfold prepare_dataset. cbv zeta. split.
  - etransitivity;
      [exact (batch_firstn_fst batch_size num_batchs _ Hb)|].
    rewrite map_map. cbn [fst]. apply firstn_map.
  - etransitivity;
      [exact (batch_firstn_snd batch_size num_batchs _ Hb)|].
    rewrite map_map. cbn [snd]. apply firstn_map.
Qed.

Lemma prepare_dataset_keeps_prefix_witness :
  concat (map fst (prepare_dataset
            [ {| sentence1 := 1%nat; sentence2 := 2%nat; label := 5 |};
              {| sentence1 := 3%nat; sentence2 := 4%nat; label := 0 |};
              {| sentence1 := 5%nat; sentence2 := 6%nat; label := 2.5 |} ]
            1 2)) = [(1%nat, 2%nat); (3%nat, 4%nat)].
Proof.
  apply (prepare_dataset_keeps_prefix
           [ {| sentence1 := 1%nat; sentence2 := 2%nat; label := 5 |};
             {| sentence1 := 3%nat; sentence2 := 4%nat; label := 0 |};
             {| sentence1 := 5%nat; sentence2 := 6%nat; label := 2.5 |} ]
           1 2).
  lia.
Defined.

(** When every raw label lies in [0, 5], every label of every batch made
    by [prepare_dataset] lies in [-1, 1], the range of a cosine
    similarity. *)
Theorem prepare_dataset_label_range {sentence : Type}
        (dataset : list (stsb_example sentence))
        (num_batchs batch_size : nat) :
  Forall (fun z => 0 <= label z <= 5) dataset ->
  Forall (fun xy =>
            Forall (fun y => exists t, y = [t] /\ -1 <= t <= 1) (snd xy))
         (prepare_dataset dataset num_batchs batch_size).
Proof.
  intros Hraw.
  pose proof (prepare_dataset_labels dataset num_batchs batch_size) as Hlab.
  eapply Forall_impl; [|exact Hlab]. intros xy Hxy.
  eapply Forall_impl; [|exact Hxy]. intros y (z & Hz & ->).
  rewrite Forall_forall in Hraw. specialize (Hraw z Hz).
  exists (change_range (label z)). split; [reflexivity|].
  unfold change_range. lra.
Qed.

Lemma prepare_dataset_label_range_witness :
  Forall (fun xy : list (nat * nat) * tensor2 =>
            Forall (fun y => exists t, y = [t] /\ -1 <= t <= 1) (snd xy))
         (prepare_dataset
            [ {| sentence1 := 1%nat; sentence2 := 2%nat; label := 5 |};
              {| sentence1 := 3%nat; sentence2 := 4%nat; label := 0 |} ]
            1 2).
Proof.
  apply (prepare_dataset_label_range
           [ {| sentence1 := 1%nat; sentence2 := 2%nat; label := 5 |};
             {| sentence1 := 3%nat; sentence2 := 4%nat; label := 0 |} ]
           1 2).
  repeat constructor; cbn; lra.
Defined.

(** ** The triplet dataset *)

Lemma zip3_split3 {A : Type} (l : list (A * A * A)) :
  (let '(la, lp, ln) := split3 l in zip3 la lp ln) = l.
Proof.
  induction l as [|[[a p] n] l IH]; [reflexivity|].
  cbn [split3]. destruct (split3 l) as [[la lp] ln].
  cbn [zip3]. f_equal. exact IH.
Qed.

Lemma split3_lengths {A : Type} (l : list (A * A * A)) :
  let '(la, lp, ln) := split3 l in
  length la = length l /\ length lp = length l /\ length ln = length l.
Proof.
  rewrite split3_maps. rewrite !length_map. repeat split.
Qed.

Lemma prepare_wiki_data_unfold {sentence : Type}
      (dataset : list (wiki_row sentence)) (num_batchs : nat) :
  prepare_wiki_data dataset num_batchs =
  map (fun b : list (sentence * sentence * sentence) * list Z =>
         (split3 (fst b), snd b))
      (firstn num_batchs
         (batch 6 (map (fun z => ((Sentence1 z, Sentence2 z, Sentence3 z),
                                  0%Z)) dataset))).
Proof. unfold prepare_wiki_data. cbv zeta. apply firstn_map. Qed.

(** [prepare_wiki_data] yields at most [num_batchs] batches; in every
    batch the anchors, the positives, the negatives and the labels are
    lists of one length, between 1 and 6; and when the dataset holds
    [6 * num_batchs] rows or more there are exactly [num_batchs] batches
    of 6 triples each. *)
Theorem prepare_wiki_data_batch_shape {sentence : Type}
        (dataset : list (wiki_row sentence)) (num_batchs : nat) :
  (length (prepare_wiki_data dataset num_batchs) <= num_batchs)%nat /\
  Forall (fun xy =>
            let '(la, lp, ln) := fst xy in
            (1 <= length la <= 6)%nat /\
            length lp = length la /\ length ln = length la /\
            length (snd xy) = length la)
         (prepare_wiki_data dataset num_batchs) /\
  ((num_batchs * 6 <= length dataset)%nat ->
   length (prepare_wiki_data dataset num_batchs) = num_batchs /\
   Forall (fun xy => length (batch_triples xy) = 6%nat)
          (prepare_wiki_data dataset num_batchs)).
Proof.
  rewrite prepare_wiki_data_unfold.
  assert (H6 : (1 <= 6)%nat) by lia.
  split; [|split].
  - rewrite length_map, length_firstn. lia.
  - apply Forall_forall. intros xy Hxy. apply in_map_iff in Hxy.
    destruct Hxy as (b & <- & Hb). cbn [fst snd].
    apply In_batch_chunk in Hb. destruct Hb as (c & Hc & ->).
    match type of Hc with
    | In _ (chunks_fuel ?f ?n ?l) =>
        pose proof (chunks_fuel_sizes f n l H6) as Hsz
    end.
    rewrite Forall_forall in Hsz. specialize (Hsz c Hc).
    pose proof (split3_lengths (fst (split c))) as Hl.
    destruct (split3 (fst (split c))) as [[la lp] ln].
    destruct Hl as (Ha & Hp & Hn).
    rewrite length_fst_split in *. rewrite length_snd_split.
    rewrite Ha, Hp, Hn. repeat split; lia.
  - intros Hfull.
    match goal with
    | |- context [batch 6 ?l] =>
        destruct (batch_full 6 num_batchs l H6) as [Hlen Hall];
        [rewrite length_map; exact Hfull|]
    end.
    split; [rewrite length_map; exact Hlen|].
    apply Forall_forall. intros xy Hxy. apply in_map_iff in Hxy.
    destruct Hxy as (b & <- & Hb).
    rewrite Forall_forall in Hall. specialize (Hall b Hb).
    unfold batch_triples. cbn [fst].
    pose proof (zip3_split3 (fst b)) as Hz.
    destruct (split3 (fst b)) as [[la lp] ln]. rewrite Hz. exact Hall.
Qed.

Lemma prepare_wiki_data_batch_shape_witness :
  length (prepare_wiki_data
            (repeat {| Sentence1 := 1%nat; Sentence2 := 2%nat;
                       Sentence3 := 3%nat |} 13) 2) = 2%nat.
Proof.
  apply (prepare_wiki_data_batch_shape
           (repeat {| Sentence1 := 1%nat; Sentence2 := 2%nat;
                      Sentence3 := 3%nat |} 13) 2).
  cbn. lia.
Defined.

(** [prepare_wiki_data] keeps the first [6 * num_batchs] rows of the
    dataset, in their order: the triples of its batches, put end to end,
    are the three sentences of those rows. *)
Theorem prepare_wiki_data_keeps_prefix {sentence : Type}
        (dataset : list (wiki_row sentence)) (num_batchs : nat) :
  concat (map batch_triples (prepare_wiki_data dataset num_batchs)) =
  map (fun z => (Sentence1 z, Sentence2 z, Sentence3 z))
      (firstn (num_batchs * 6) dataset).
Proof.
  rewrite prepare_wiki_data_unfold. rewrite map_map.
  rewrite (map_ext _ fst).
  - etransitivity; [apply batch_firstn_fst; lia|].
    rewrite map_map. cbn [fst]. apply firstn_map.
  - intros b. unfold batch_triples. cbn [fst].
    pose proof (zip3_split3 (fst b)) as Hz.
    destruct (split3 (fst b)) as [[la lp] ln]. exact Hz.
Qed.

(** ** Outcomes of the triplet loss *)

Lemma reduce_sum_nonneg (v : vec) :
  Forall (fun x => 0 <= x) v -> 0 <= tf.reduce_sum v.
Proof.
  unfold tf.reduce_sum. induction 1 as [|x v Hx _ IH]; cbn [fold_right]; lra.
Qed.

Lemma reduce_sum_zero_iff (v : vec) :
  Forall (fun x => 0 <= x) v ->
  (tf.reduce_sum v = 0 <-> Forall (fun x => x = 0) v).
Proof.
  unfold tf.reduce_sum. induction 1 as [|x v Hx Hv IH]; cbn [fold_right].
  - split; [constructor|reflexivity].
  - pose proof (reduce_sum_nonneg v Hv) as Hs. unfold tf.reduce_sum in Hs.
    split.
    + intros E. constructor; [lra|]. apply IH. lra.
    + intros Hall. inversion Hall as [|? ? Hx0 Hv0]; subst.
      apply IH in Hv0. lra.
Qed.

Lemma reduce_sum_monotone (f g : R * R -> R) (l : list (R * R)) :
  (forall x, f x <= g x) ->
  tf.reduce_sum (map f l) <= tf.reduce_sum (map g l).
Proof.
  intros Hfg. unfold tf.reduce_sum.
  induction l as [|x l IH]; cbn [map fold_right]; [lra|].
  specialize (Hfg x). lra.
Qed.

Lemma map2_combine {A B C : Type} (f : A -> B -> C) (a : list A) (b : list B) :
  tf.map2 f a b = map (fun ab => f (fst ab) (snd ab)) (combine a b).
Proof.
  revert b; induction a as [|x a IH]; intros [|y b]; try reflexivity.
  cbn [tf.map2 combine map fst snd]. f_equal. apply IH.
Qed.

Lemma losses_combine (self : TripletLoss.t) (pd nd : vec) :
  TripletLoss.losses self pd nd =
  map (fun pn => Rmax (fst pn - snd pn + TripletLoss.margin self) 0)
      (combine pd nd).
Proof.
  rewrite losses_elementwise.
  exact (map2_combine
           (fun p n => Rmax (p - n + TripletLoss.margin self) 0) pd nd).
Qed.

Lemma losses_nonempty (self : TripletLoss.t) (pd nd : vec) :
  pd <> [] -> nd <> [] -> TripletLoss.losses self pd nd <> [].
Proof.
  rewrite losses_elementwise.
  destruct pd; [intros H; contradiction H; reflexivity|].
  destruct nd; [intros _ H; contradiction H; reflexivity|]. discriminate.
Qed.

Lemma call_two_rows {Y : Type} (self : TripletLoss.t) (y_true : Y)
      (pd nd : vec) :
  pd <> [] -> nd <> [] ->
  TripletLoss.call self y_true [pd; nd] =
  Ok (tf.reduce_sum (TripletLoss.losses self pd nd)
      / INR (length (TripletLoss.losses self pd nd))).
Proof.
  intros Hp Hn. cbn [TripletLoss.call].
  apply reduce_mean_nonempty, losses_nonempty; assumption.
Qed.

Lemma mean_nonneg (v : vec) :
  v <> [] -> Forall (fun x => 0 <= x) v ->
  0 <= tf.reduce_sum v / INR (length v).
Proof.
  intros Hne Hv. apply Rmult_le_pos; [apply reduce_sum_nonneg, Hv|].
  apply Rlt_le, Rinv_0_lt_compat, lt_0_INR.
  destruct v; [contradiction Hne; reflexivity|cbn; lia].
Qed.

(** [TripletLoss.call] fails with a shape error on a prediction that does
    not have exactly two rows; on two rows of which one is empty the mean
    divides by zero; on two non-empty rows it returns a loss that is not
    negative. *)
Theorem TripletLoss_call_outcomes {Y : Type} (self : TripletLoss.t)
        (y_true : Y) (y_pred : tensor2) :
  (length y_pred <> 2%nat ->
   TripletLoss.call self y_true y_pred = Err ShapeError) /\
  (forall pd nd, y_pred = [pd; nd] ->
     (pd = [] \/ nd = [] ->
      TripletLoss.call self y_true y_pred = Err DivisionByZero) /\
     (pd <> [] -> nd <> [] ->
      exists l, TripletLoss.call self y_true y_pred = Ok l /\ 0 <= l)).
Proof.
  split.
  - intros Hlen.
    destruct y_pred as [|pd [|nd [|extra rest]]]; try reflexivity.
    contradiction Hlen; reflexivity.
  - intros pd nd ->. split.
    + intros Hempty. cbn [TripletLoss.call]. unfold tf.reduce_mean.
      assert (E : TripletLoss.losses self pd nd = []).
      { rewrite losses_elementwise.
        destruct Hempty as [-> | ->]; [reflexivity|].
        destruct pd; reflexivity. }
      rewrite E. cbn [length INR]. apply divide_zero.
    + intros Hp Hn. rewrite call_two_rows by assumption.
      eexists. split; [reflexivity|].
      apply mean_nonneg; [apply losses_nonempty; assumption|].
      apply losses_nonneg.
Qed.

Lemma TripletLoss_call_outcomes_witness :
  TripletLoss.call (TripletLoss.init None) 0%Z [[1]; [2]; [3]]
    = Err ShapeError /\
  TripletLoss.call (TripletLoss.init None) 0%Z [[]; []]
    = Err DivisionByZero /\
  exists l, TripletLoss.call (TripletLoss.init None) 0%Z [[1]; [2]] = Ok l
            /\ 0 <= l.
Proof.
  split; [|split].
  - apply (TripletLoss_call_outcomes (TripletLoss.init None) 0%Z
             [[1]; [2]; [3]]).
    cbn. lia.
  - destruct (TripletLoss_call_outcomes (TripletLoss.init None) 0%Z
                [[]; []]) as [_ H].
    destruct (H [] [] eq_refl) as [Hzero _].
    apply Hzero. left; reflexivity.
  - destruct (TripletLoss_call_outcomes (TripletLoss.init None) 0%Z
                [[1]; [2]]) as [_ H].
    destruct (H [1] [2] eq_refl) as [_ Hok].
    apply Hok; discriminate.
Defined.

(** The loss of a batch is zero exactly when every example keeps the
    margin: [d_pos + margin <= d_neg] for every pair of distances. *)
Theorem TripletLoss_zero_iff {Y : Type} (self : TripletLoss.t) (y_true : Y)
        (pd nd : vec) :
  pd <> [] -> nd <> [] ->
  (TripletLoss.call self y_true [pd; nd] = Ok 0 <->
   Forall (fun pn => fst pn + TripletLoss.margin self <= snd pn)
          (combine pd nd)).
Proof.
  intros Hp Hn. rewrite call_two_rows by assumption.
  pose proof (losses_nonempty self pd nd Hp Hn) as Hne.
  pose proof (losses_nonneg self pd nd) as Hnn.
  assert (Hlen : 0 < INR (length (TripletLoss.losses self pd nd))).
  { apply lt_0_INR. destruct (TripletLoss.losses self pd nd);
      [contradiction Hne; reflexivity|cbn; lia]. }
  assert (Hz : tf.reduce_sum (TripletLoss.losses self pd nd)
               / INR (length (TripletLoss.losses self pd nd)) = 0 <->
               tf.reduce_sum (TripletLoss.losses self pd nd) = 0).
  { split; intros E.
    - apply (Rmult_eq_compat_r
               (INR (length (TripletLoss.losses self pd nd)))) in E.
      unfold Rdiv in E. rewrite Rmult_assoc, Rinv_l, Rmult_1_r, Rmult_0_l in E
        by lra. exact E.
    - rewrite E. unfold Rdiv. apply Rmult_0_l. }
  assert (Hall : Forall (fun x => x = 0) (TripletLoss.losses self pd nd) <->
                 Forall (fun pn => fst pn + TripletLoss.margin self <= snd pn)
                        (combine pd nd)).
  { rewrite losses_combine. rewrite Forall_map.
    split; apply Forall_impl; intros [p n]; cbn [fst snd]; intros H.
    - destruct (Rle_dec (p - n + TripletLoss.margin self) 0) as [Hle|Hgt];
        [lra|]. rewrite Rmax_left in H by lra. lra.
    - apply Rmax_right. lra. }
  split.
  - intros E. apply Hall, (reduce_sum_zero_iff _ Hnn), Hz. congruence.
  - intros H. apply Hall, (reduce_sum_zero_iff _ Hnn), Hz in H.
    rewrite H. reflexivity.
Qed.

Lemma TripletLoss_zero_iff_witness :
  TripletLoss.call (TripletLoss.init None) 0%Z [[1; 2]; [2; 5]] = Ok 0.
Proof.
  apply (TripletLoss_zero_iff (TripletLoss.init None) 0%Z [1; 2] [2; 5]);
    try discriminate.
  repeat constructor; cbn; lra.
Defined.

(** A larger margin never gives a smaller loss on the same distances. *)
Theorem TripletLoss_margin_monotone {Y : Type} (m1 m2 : R) (y_true : Y)
        (pd nd : vec) (l1 l2 : R) :
  m1 <= m2 ->
  TripletLoss.call (TripletLoss.init (Some m1)) y_true [pd; nd] = Ok l1 ->
  TripletLoss.call (TripletLoss.init (Some m2)) y_true [pd; nd] = Ok l2 ->
  l1 <= l2.
Proof.
  intros Hm H1 H2. cbn [TripletLoss.call] in H1, H2.
  unfold tf.reduce_mean, tf.divide in H1, H2.
  rewrite !losses_combine in H1, H2. rewrite !length_map in H1, H2.
  destruct (Req_dec_T (INR (length (combine pd nd))) 0) as [E|Hnz];
    [discriminate|].
  inversion H1; inversion H2; subst. clear H1 H2.
  assert (Hpos : 0 < / INR (length (combine pd nd))).
  { apply Rinv_0_lt_compat. pose proof (pos_INR (length (combine pd nd))).
    lra. }
  unfold Rdiv. apply Rmult_le_compat_r; [lra|].
  apply reduce_sum_monotone. intros [p n]. cbn [fst snd TripletLoss.margin
    TripletLoss.init].
  apply Rmax_case; [|apply Rmax_r].
  apply Rle_trans with (p - n + m2); [lra|apply Rmax_l].
Qed.

Lemma TripletLoss_margin_monotone_witness :
  TripletLoss.call (TripletLoss.init (Some 1)) 0%Z [[3]; [2]] = Ok 2 /\
  TripletLoss.call (TripletLoss.init (Some 2)) 0%Z [[3]; [2]] = Ok 3 /\
  2 <= 3.
Proof.
  assert (H1 : TripletLoss.call (TripletLoss.init (Some 1)) 0%Z [[3]; [2]]
               = Ok 2).
  { rewrite call_two_rows by discriminate. rewrite losses_combine.
    cbn [combine map fst snd length INR tf.reduce_sum fold_right
         TripletLoss.margin TripletLoss.init].
    rewrite Rmax_left by lra. f_equal. field. }
  assert (H2 : TripletLoss.call (TripletLoss.init (Some 2)) 0%Z [[3]; [2]]
               = Ok 3).
  { rewrite call_two_rows by discriminate. rewrite losses_combine.
    cbn [combine map fst snd length INR tf.reduce_sum fold_right
         TripletLoss.margin TripletLoss.init].
    rewrite Rmax_left by lra. f_equal. field. }
  split; [exact H1|]. split; [exact H2|].
  apply (TripletLoss_margin_monotone 1 2 0%Z [3] [2] 2 3);
    [lra|exact H1|exact H2].
Defined.

(** ** The triplet model: shape, distances and failures *)

Lemma mapM_err {A B : Type} (f : A -> result B) (l : list A) (e : error) :
  mapM f l = Err e -> exists a, In a l /\ f a = Err e.
Proof.
  induction l as [|a l IH]; cbn [mapM]; [discriminate|].
  destruct (f a) as [b|e'] eqn:Ea; cbn [bind].
  - destruct (mapM f l) as [bs|e'']; cbn [bind]; [discriminate|].
    intros H. inversion H; subst.
    destruct (IH eq_refl) as (a' & Hin & Ha').
    exists a'. split; [right; exact Hin|exact Ha'].
  - intros H. inversion H; subst. exists a. split; [left; reflexivity|exact Ea].
Qed.

Lemma sqrt_rows_nonneg (v : vec) : Forall (fun d => 0 <= d) (tf.sqrt v).
Proof.
  unfold tf.sqrt. apply Forall_forall. intros d Hd.
  apply in_map_iff in Hd. destruct Hd as (x & <- & _). apply sqrt_pos.
Qed.

Lemma distance_row_length (ea eb : tensor2) :
  length (tf.sqrt (tf.reduce_sum_axis1 (tf.pow (tf.subtract ea eb) 2))) =
  Nat.min (length ea) (length eb).
Proof.
  unfold tf.sqrt, tf.reduce_sum_axis1, tf.pow, tf.subtract.
  rewrite !length_map. apply map2_length.
Qed.

(** Whenever [TripletSiamese] returns, on three lists of one length [B],
    it returns exactly two rows of [B] distances, none negative. *)
Theorem TripletSiamese_output_shape {sentence : Type}
        (encoder : sentence -> result vec)
        (anchor positive negative : list sentence) (y : tensor2) :
  length positive = length anchor -> length negative = length anchor ->
  TripletSiamese encoder (anchor, positive, negative) = Ok y ->
  exists positive_dist negative_dist,
    y = [positive_dist; negative_dist] /\
    length positive_dist = length anchor /\
    length negative_dist = length anchor /\
    Forall (fun d => 0 <= d) positive_dist /\
    Forall (fun d => 0 <= d) negative_dist.
Proof.
  intros Hp Hn H. unfold TripletSiamese in H.
  destruct (mapM encoder anchor) as [ea|e] eqn:Ea; [|discriminate].
  destruct (mapM encoder positive) as [ep|e] eqn:Ep; [|discriminate].
  destruct (mapM encoder negative) as [en|e] eqn:En; [|discriminate].
  cbn [bind] in H. inversion H; subst. clear H.
  apply mapM_length in Ea, Ep, En.
  eexists _, _. split; [reflexivity|].
  rewrite !distance_row_length.
  repeat split; try apply sqrt_rows_nonneg; lia.
Qed.

Lemma TripletSiamese_output_shape_witness :
  exists positive_dist negative_dist,
    [[euclidean_distance [1; 2] [1; 2]]; [euclidean_distance [1; 2] [4; 6]]]
      = [positive_dist; negative_dist] /\
    length positive_dist = 1%nat /\
    length negative_dist = 1%nat /\
    Forall (fun d => 0 <= d) positive_dist /\
    Forall (fun d => 0 <= d) negative_dist.
Proof.
  apply (TripletSiamese_output_shape given_encoder
           [[1; 2]] [[1; 2]] [[4; 6]]); try reflexivity.
  apply (TripletSiamese_output given_encoder (fun s => s)
                               [([1; 2], [1; 2], [4; 6])]).
  repeat constructor.
Defined.




Lemma dot_self_zero (d : vec) : tf.dot d d = 0 -> Forall (fun x => x = 0) d.
Proof.
  rewrite dot_self_squares. intros H.
  assert (Hnn : Forall (fun x => 0 <= x) (map (fun xi => xi * xi) d)).
  { apply Forall_forall. intros x Hx. apply in_map_iff in Hx.
    destruct Hx as (a & <- & _). pose proof (Rle_0_sqr a) as Ha.
    unfold Rsqr in Ha. exact Ha. }
  apply (reduce_sum_zero_iff _ Hnn) in H. rewrite Forall_map in H.
  eapply Forall_impl; [|exact H]. intros a Ha. cbv beta in Ha.
  destruct (Rmult_integral _ _ Ha); assumption.
Qed.

Lemma subtract_zero_equal (a b : vec) :
  length a = length b ->
  Forall (fun x => x = 0) (tf.map2 Rminus a b) -> a = b.
Proof.
  revert b; induction a as [|x a IH]; intros [|y b] Hlen H;
    try discriminate; [reflexivity|].
  cbn [tf.map2] in H. inversion H as [|? ? Hxy Hrest]; subst.
  f_equal; [lra|]. apply IH; [injection Hlen; auto|exact Hrest].
Qed.

Lemma euclidean_distance_zero_iff (a b : vec) :
  length a = length b -> (euclidean_distance a b = 0 <-> a = b).
Proof.
  intros Hlen. split.
  - intros H. unfold euclidean_distance, euclidean_norm in H.
    apply sqrt_eq_0 in H; [|apply dot_self_nonneg].
    apply subtract_zero_equal; [exact Hlen|]. apply dot_self_zero, H.
  - intros ->. apply euclidean_distance_self.
Qed.

(** The converse of the zero distance of identical sentences: the
    anchor-positive distance of an example is zero only when the two
    embeddings are the same vector. *)
Theorem zero_distance_iff_equal_embeddings {sentence : Type}
        (encoder : sentence -> result vec) (emb : sentence -> vec)
        (triples : list (sentence * sentence * sentence))
        (i : nat) (a p n : sentence) :
  Forall (fun t => encodes encoder emb (anchor_of t) /\
                   encodes encoder emb (positive_of t) /\
                   encodes encoder emb (negative_of t)) triples ->
  nth_error triples i = Some (a, p, n) ->
  length (emb a) = length (emb p) ->
  exists positive_dist negative_dist d_pos,
    TripletSiamese encoder (split3 triples) =
      Ok [positive_dist; negative_dist] /\
    nth_error positive_dist i = Some d_pos /\
    (d_pos = 0 <-> emb a = emb p).
Proof.
  intros H Hi Hlen.
  eexists _, _, _.
  split; [apply (TripletSiamese_output encoder emb triples H)|].
  split; [apply (map_nth_error _ _ _ Hi)|].
  cbn [anchor_of positive_of fst snd].
  apply euclidean_distance_zero_iff, Hlen.
Qed.

Lemma zero_distance_iff_equal_embeddings_witness :
  exists positive_dist negative_dist d_pos,
    TripletSiamese given_encoder (split3 [([0; 0], [3; 4], [0; 1])]) =
      Ok [positive_dist; negative_dist] /\
    nth_error positive_dist 0 = Some d_pos /\
    (d_pos = 0 <-> [0; 0] = [3; 4]).
Proof.
  apply (zero_distance_iff_equal_embeddings given_encoder (fun s => s)
           [([0; 0], [3; 4], [0; 1])] 0 [0; 0] [3; 4] [0; 1]).
  - repeat constructor.
  - reflexivity.
  - reflexivity.
Defined.

(** On every batch made by [prepare_wiki_data], an encoder that embeds
    every sentence gives a loss: the model output has the two rows the
    loss unpacks, the batch is not empty, and the loss is not negative. *)
Theorem wiki_batch_loss_defined {sentence : Type}
        (encoder : sentence -> result vec) (emb : sentence -> vec)
        (loss : TripletLoss.t) (dataset : list (wiki_row sentence))
        (num_batchs : nat) :
  (forall s, encodes encoder emb s) ->
  Forall (fun xy => exists l, triplet_batch_loss encoder loss xy = Ok l /\
                              0 <= l)
         (prepare_wiki_data dataset num_batchs).
Proof.
  intros Henc. rewrite prepare_wiki_data_unfold.
  assert (H6 : (1 <= 6)%nat) by lia.
  apply Forall_forall. intros xy Hxy. apply in_map_iff in Hxy.
  destruct Hxy as (b & <- & Hb).
  apply In_batch_chunk in Hb. destruct Hb as (c & Hc & ->).
  match type of Hc with
  | In _ (chunks_fuel ?f ?n ?l) =>
      pose proof (chunks_fuel_sizes f n l H6) as Hsz
  end.
  rewrite Forall_forall in Hsz. specialize (Hsz c Hc).
  rewrite <- length_fst_split in Hsz.
  unfold triplet_batch_loss. cbn [fst snd].
  rewrite (TripletSiamese_output encoder emb)
    by (apply Forall_forall; intros t _; repeat split; apply Henc).
  cbn [bind].
  assert (Hne : forall (f : sentence * sentence * sentence -> R),
             map f (fst (split c)) <> []).
  { intros f E. apply (f_equal (@length R)) in E.
    rewrite length_map in E. cbn in E. lia. }
  rewrite call_two_rows by apply Hne.
  eexists. split; [reflexivity|].
  apply mean_nonneg; [apply losses_nonempty; apply Hne|apply losses_nonneg].
Qed.

Lemma wiki_batch_loss_defined_witness :
  Forall (fun xy => exists l,
              triplet_batch_loss given_encoder (TripletLoss.init None) xy
                = Ok l /\ 0 <= l)
         (prepare_wiki_data
            [ {| Sentence1 := [1; 2]; Sentence2 := [1; 3];
                 Sentence3 := [5; 5] |} ] 1).
Proof.
  apply (wiki_batch_loss_defined given_encoder (fun s => s)).
  intros s. reflexivity.
Defined.

(** ** Failures of the encoders *)

Lemma divide_error (x y : R) (e : error) :
  tf.divide x y = Err e -> e = DivisionByZero.
Proof.
  unfold tf.divide. destruct (Req_dec_T y 0); intros H; inversion H.
  reflexivity.
Qed.

Lemma divide_scalar_error (v : vec) (c : R) (e : error) :
  tf.divide_scalar v c = Err e -> e = DivisionByZero.
Proof.
  intros H. apply mapM_err in H. destruct H as (x & _ & Hx).
  apply (divide_error x c e Hx).
Qed.

Lemma pooling_error (h : tensor2) (mask : list bool) (e : error) :
  GlobalAveragePooling1D h mask = Err e -> e = DivisionByZero.
Proof. apply divide_scalar_error. Qed.

Lemma normalize_error (x : vec) (e : error) :
  normalize x = Err e -> e = DivisionByZero.
Proof.
  unfold normalize. intros H.
  destruct (tf.divide_scalar x _) as [n|e'] eqn:E; cbn [bind] in H;
    [discriminate|].
  inversion H; subst. apply (divide_scalar_error _ _ _ E).
Qed.


Lemma roberta_normal_encoder_error {sentence token : Type}
      (preprocessor : sentence -> features token)
      (backbone : features token -> tensor2) (s : sentence) (e : error) :
  roberta_normal_encoder sentence token preprocessor backbone s = Err e ->
  e = DivisionByZero.
Proof.
  unfold roberta_normal_encoder. intros H.
  destruct (GlobalAveragePooling1D _ _) as [v|e'] eqn:E; cbn [bind] in H.
  - destruct (normalize v) as [n|e'] eqn:En; cbn [bind] in H;
      [discriminate|].
    inversion H; subst. apply (normalize_error _ _ En).
  - inversion H; subst. apply (pooling_error _ _ _ E).
Qed.



(** ** The regression encoder and the cosine scores *)

Lemma mapM_ok_embedding {sentence : Type} (encoder : sentence -> result vec)
      (l : list sentence) (r : tensor2) :
  mapM encoder l = Ok r ->
  r = map (embedding_of encoder) l /\
  Forall (fun s => encodes encoder (embedding_of encoder) s) l.
Proof.
  revert r; induction l as [|a l IH]; cbn [mapM]; intros r H.
  - inversion H. split; [reflexivity|constructor].
  - destruct (encoder a) as [b|e] eqn:Ea; cbn [bind] in H; [|discriminate].
    destruct (mapM encoder l) as [bs|e]; cbn [bind] in H; [|discriminate].
    inversion H; subst. destruct (IH bs eq_refl) as [-> Hall].
    split.
    + cbn [map]. f_equal. unfold embedding_of. rewrite Ea. reflexivity.
    + constructor; [|exact Hall].
      unfold encodes, embedding_of. rewrite Ea. reflexivity.
Qed.

Lemma divide_scalar_ok_nonempty (v n : vec) (c : R) :
  tf.divide_scalar v c = Ok n -> n <> [] ->
  c <> 0 /\ n = map (fun x => x / c) v.
Proof.
  intros H Hn. destruct (Req_dec_T c 0) as [->|Hc].
  - destruct v as [|x v].
    + cbn in H. inversion H; subst. contradiction Hn; reflexivity.
    + rewrite divide_scalar_zero in H by discriminate. discriminate.
  - rewrite divide_scalar_nonzero in H by exact Hc.
    inversion H. split; [exact Hc|reflexivity].
Qed.

Lemma normalized_dot_self (e : vec) :
  euclidean_norm e <> 0 ->
  tf.dot (map (fun x => x / euclidean_norm e) e)
         (map (fun x => x / euclidean_norm e) e) = 1.
Proof.
  intros Hnz. rewrite dot_scaled by exact Hnz.
  rewrite euclidean_norm_sqr.
  assert (tf.dot e e <> 0).
  { rewrite <- euclidean_norm_sqr. apply Rmult_integral_contrapositive.
    split; exact Hnz. }
  field. assumption.
Qed.

Lemma normal_encoder_dot_self {sentence token : Type}
      (preprocessor : sentence -> features token)
      (backbone : features token -> tensor2) (s : sentence) (n : vec) :
  roberta_normal_encoder sentence token preprocessor backbone s = Ok n ->
  n <> [] ->
  tf.dot n n = 1 /\ euclidean_norm n = 1.
Proof.
  unfold roberta_normal_encoder. intros H Hn.
  destruct (GlobalAveragePooling1D _ _) as [e|?]; cbn [bind] in H;
    [|discriminate].
  unfold normalize in H. rewrite <- dot_self_squares in H.
  fold (euclidean_norm e) in H.
  destruct (tf.divide_scalar e (euclidean_norm e)) as [n'|?] eqn:E;
    cbn [bind fst] in H; [|discriminate].
  inversion H; subst n'. clear H.
  destruct (divide_scalar_ok_nonempty _ _ _ E Hn) as [Hnz ->].
  pose proof (normalized_dot_self e Hnz) as Hdot.
  split; [exact Hdot|]. unfold euclidean_norm at 1. rewrite Hdot.
  apply sqrt_1.
Qed.

(** Whenever the regression encoder returns an embedding that is not
    empty, the embedding is a unit vector. *)
Theorem roberta_normal_encoder_unit_norm {sentence token : Type}
        (preprocessor : sentence -> features token)
        (backbone : features token -> tensor2) (s : sentence) (n : vec) :
  roberta_normal_encoder sentence token preprocessor backbone s = Ok n ->
  n <> [] ->
  tf.dot n n = 1 /\ euclidean_norm n = 1.
Proof. apply normal_encoder_dot_self. Qed.

Lemma roberta_normal_encoder_unit_norm_witness :
  tf.dot [1; 0] [1; 0] = 1 /\ euclidean_norm [1; 0] = 1.
Proof.
  apply (roberta_normal_encoder_unit_norm given_preprocessor given_backbone
           sentence_e1 [1; 0]).
  - apply given_normal_encoder_e1.
  - discriminate.
Defined.

Lemma dot_subtract_expand (a b : vec) :
  length a = length b ->
  tf.dot (tf.map2 Rminus a b) (tf.map2 Rminus a b) =
  tf.dot a a - 2 * tf.dot a b + tf.dot b b.
Proof.
  unfold tf.dot, tf.reduce_sum.
  revert b; induction a as [|x a IH]; intros [|y b] Hlen; try discriminate.
  - cbn. ring.
  - cbn [tf.map2 fold_right]. rewrite IH by (injection Hlen; auto). ring.
Qed.

Lemma dot_add_expand (a b : vec) :
  length a = length b ->
  tf.dot (tf.map2 Rplus a b) (tf.map2 Rplus a b) =
  tf.dot a a + 2 * tf.dot a b + tf.dot b b.
Proof.
  unfold tf.dot, tf.reduce_sum.
  revert b; induction a as [|x a IH]; intros [|y b] Hlen; try discriminate.
  - cbn. ring.
  - cbn [tf.map2 fold_right]. rewrite IH by (injection Hlen; auto). ring.
Qed.

(** The inner product of two unit vectors of one length lies in
    [-1, 1]. *)
Lemma dot_unit_bounds (a b : vec) :
  length a = length b -> tf.dot a a = 1 -> tf.dot b b = 1 ->
  -1 <= tf.dot a b <= 1.
Proof.
  intros Hlen Ha Hb.
  pose proof (dot_self_nonneg (tf.map2 Rminus a b)) as Hm.
  pose proof (dot_self_nonneg (tf.map2 Rplus a b)) as Hp.
  rewrite dot_subtract_expand in Hm by exact Hlen.
  rewrite dot_add_expand in Hp by exact Hlen.
  lra.
Qed.

(** Whenever the regression model returns, on sentences where the encoder
    has one width that is not zero, its output holds the inner product of
    every first embedding with every second embedding. *)
Lemma RegressionSiamese_ok_output {sentence : Type}
      (encoder : sentence -> result vec) (D : nat)
      (pairs : list (sentence * sentence)) (scores : tensor2) :
  (1 <= D)%nat ->
  Forall (fun p => has_width encoder D (fst p) /\
                   has_width encoder D (snd p)) pairs ->
  RegressionSiamese encoder pairs = Ok scores ->
  scores =
    map (fun p => map (fun q => tf.dot (embedding_of encoder (fst p))
                                       (embedding_of encoder (snd q)))
                      pairs) pairs /\
  Forall (fun p => encodes encoder (embedding_of encoder) (fst p) /\
                   encodes encoder (embedding_of encoder) (snd p)) pairs.
Proof.
  intros HD Hw H.
  assert (Henc : Forall (fun p =>
                   encodes encoder (embedding_of encoder) (fst p) /\
                   encodes encoder (embedding_of encoder) (snd p)) pairs).
  { unfold RegressionSiamese in H. rewrite split_maps in H.
    destruct (mapM encoder (map fst pairs)) as [u|?] eqn:Eu;
      cbn [bind] in H; [|discriminate].
    destruct (mapM encoder (map snd pairs)) as [v|?] eqn:Ev;
      cbn [bind] in H; [|discriminate].
    apply mapM_ok_embedding in Eu, Ev.
    destruct Eu as [_ Hu]. destruct Ev as [_ Hv].
    rewrite Forall_map in Hu, Hv.
    apply Forall_forall. intros p Hp. rewrite Forall_forall in Hu, Hv.
    split; [apply Hu|apply Hv]; exact Hp. }
  split; [|exact Henc].
  rewrite (RegressionSiamese_output encoder (embedding_of encoder) D) in H.
  - inversion H. reflexivity.
  - exact HD.
  - apply Forall_forall. intros p Hp.
    rewrite Forall_forall in Henc, Hw.
    destruct (Henc p Hp) as [Hf Hs]. destruct (Hw p Hp) as [_ Hws].
    repeat split; try assumption. apply Hws. exact Hs.
Qed.

Lemma normal_encoder_embedding_unit {sentence token : Type}
      (preprocessor : sentence -> features token)
      (backbone : features token -> tensor2) (D : nat) (s : sentence) :
  (1 <= D)%nat ->
  has_width (roberta_normal_encoder sentence token preprocessor backbone) D s ->
  encodes (roberta_normal_encoder sentence token preprocessor backbone)
          (embedding_of
             (roberta_normal_encoder sentence token preprocessor backbone))
          s ->
  length (embedding_of
            (roberta_normal_encoder sentence token preprocessor backbone) s)
    = D /\
  tf.dot (embedding_of
            (roberta_normal_encoder sentence token preprocessor backbone) s)
         (embedding_of
            (roberta_normal_encoder sentence token preprocessor backbone) s)
    = 1.
Proof.
  intros HD Hw He. pose proof (Hw _ He) as Hlen.
  split; [exact Hlen|].
  apply (normal_encoder_dot_self preprocessor backbone s _ He).
  intros E. rewrite E in Hlen. cbn in Hlen. lia.
Qed.

(** The scores of the regression model lie in [-1, 1]: on a batch of [B]
    pairs whose sentences the encoder embeds with one width, every entry
    of the [B] by [B] output is between -1 and 1. *)
Theorem regression_scores_bounded {sentence token : Type}
        (preprocessor : sentence -> features token)
        (backbone : features token -> tensor2) (D : nat)
        (pairs : list (sentence * sentence)) (scores : tensor2) :
  (1 <= D)%nat ->
  Forall (fun p =>
            has_width (roberta_normal_encoder sentence token preprocessor
                                              backbone) D (fst p) /\
            has_width (roberta_normal_encoder sentence token preprocessor
                                              backbone) D (snd p)) pairs ->
  roberta_regression_siamese preprocessor backbone pairs = Ok scores ->
  length scores = length pairs /\
  Forall (fun row => length row = length pairs /\
                     Forall (fun x => -1 <= x <= 1) row) scores.
Proof.
  intros HD Hw H. unfold roberta_regression_siamese in H.
  destruct (RegressionSiamese_ok_output _ D pairs scores HD Hw H)
    as [-> Henc].
  split; [apply length_map|].
  rewrite Forall_forall in Henc, Hw.
  apply Forall_forall. intros row Hrow. apply in_map_iff in Hrow.
  destruct Hrow as (p & <- & Hp). split; [apply length_map|].
  apply Forall_forall. intros x Hx. apply in_map_iff in Hx.
  destruct Hx as (q & <- & Hq).
  destruct (Henc p Hp) as [Hpf _]. destruct (Hw p Hp) as [Hwf _].
  destruct (Henc q Hq) as [_ Hqs]. destruct (Hw q Hq) as [_ Hws].
  destruct (normal_encoder_embedding_unit _ _ D _ HD Hwf Hpf) as [L1 U1].
  destruct (normal_encoder_embedding_unit _ _ D _ HD Hws Hqs) as [L2 U2].
  apply dot_unit_bounds; [congruence|exact U1|exact U2].
Qed.

Lemma given_width_e1 : has_width given_normal_encoder 2 sentence_e1.
Proof.
  intros n Hn. rewrite given_normal_encoder_e1 in Hn. inversion Hn.
  reflexivity.
Qed.

Lemma given_width_e2 : has_width given_normal_encoder 2 sentence_e2.
Proof.
  intros n Hn. rewrite given_normal_encoder_e2 in Hn. inversion Hn.
  reflexivity.
Qed.

Lemma given_regression_two_pairs :
  roberta_regression_siamese given_preprocessor given_backbone
    [(sentence_e1, sentence_e2); (sentence_e2, sentence_e2)] =
  Ok [[0; 0]; [1; 1]].
Proof. eval_regression. Qed.

Lemma regression_scores_bounded_witness :
  length [[0; 0]; [1; 1]] = 2%nat /\
  Forall (fun row : vec => length row = 2%nat /\
                           Forall (fun x => -1 <= x <= 1) row)
         [[0; 0]; [1; 1]].
Proof.
  apply (regression_scores_bounded given_preprocessor given_backbone 2
           [(sentence_e1, sentence_e2); (sentence_e2, sentence_e2)]).
  - lia.
  - repeat constructor; cbn [fst snd];
      first [apply given_width_e1 | apply given_width_e2].
  - apply given_regression_two_pairs.
Defined.

(** A pair made of one sentence twice scores exactly 1: in the output of
    the regression model, the entry of pair [i] with itself is 1 when the
    two sentences of the pair are the same. *)
Theorem identical_sentences_score_one {sentence token : Type}
        (preprocessor : sentence -> features token)
        (backbone : features token -> tensor2) (D : nat)
        (pairs : list (sentence * sentence)) (scores : tensor2)
        (i : nat) (s : sentence) :
  (1 <= D)%nat ->
  Forall (fun p =>
            has_width (roberta_normal_encoder sentence token preprocessor
                                              backbone) D (fst p) /\
            has_width (roberta_normal_encoder sentence token preprocessor
                                              backbone) D (snd p)) pairs ->
  roberta_regression_siamese preprocessor backbone pairs = Ok scores ->
  nth_error pairs i = Some (s, s) ->
  exists row, nth_error scores i = Some row /\ nth_error row i = Some 1.
Proof.
  intros HD Hw H Hi. unfold roberta_regression_siamese in H.
  destruct (RegressionSiamese_ok_output _ D pairs scores HD Hw H)
    as [-> Henc].
  eexists. split; [apply (map_nth_error _ _ _ Hi)|].
  rewrite (map_nth_error _ _ _ Hi). cbn [fst snd]. f_equal.
  apply nth_error_In in Hi.
  rewrite Forall_forall in Henc, Hw.
  destruct (Henc _ Hi) as [He _]. destruct (Hw _ Hi) as [Hws _].
  apply (normal_encoder_embedding_unit _ _ D _ HD Hws He).
Qed.

Lemma identical_sentences_score_one_witness :
  exists row, nth_error [[0; 0]; [1; 1]] 1 = Some row /\
              nth_error row 1 = Some 1.
Proof.
  apply (identical_sentences_score_one given_preprocessor given_backbone 2
           [(sentence_e1, sentence_e2); (sentence_e2, sentence_e2)]
           [[0; 0]; [1; 1]] 1 sentence_e2).
  - lia.
  - repeat constructor; cbn [fst snd];
      first [apply given_width_e1 | apply given_width_e2].
  - apply given_regression_two_pairs.
  - reflexivity.
Defined.

(** ** Semantic search *)

(** The semantic search with one query returns one score per sentence of
    the corpus, each in [-1, 1], and a sentence of the corpus that is the
    query itself scores exactly 1, the largest score there is. *)
Theorem semantic_search_scores {sentence token : Type}
        (preprocessor : sentence -> features token)
        (backbone : features token -> tensor2) (D : nat)
        (sentences : list sentence) (q : sentence) (row : vec) :
  (1 <= D)%nat ->
  Forall (has_width (roberta_normal_encoder sentence token preprocessor
                                            backbone) D) (q :: sentences) ->
  semantic_search (roberta_normal_encoder sentence token preprocessor backbone)
                  sentences [q] = Ok row ->
  length row = length sentences /\
  Forall (fun x => -1 <= x <= 1) row /\
  forall i, nth_error sentences i = Some q -> nth_error row i = Some 1.
Proof.
  intros HD Hw H. unfold semantic_search in H.
  destruct (mapM _ sentences) as [se|?] eqn:Es; cbn [bind] in H;
    [|discriminate].
  destruct (mapM _ [q]) as [qe|?] eqn:Eq; cbn [bind] in H; [|discriminate].
  apply mapM_ok_embedding in Es, Eq.
  destruct Es as [-> Hs]. destruct Eq as [-> Hq].
  inversion Hw as [|? ? Hwq Hws]; subst.
  inversion Hq as [|? ? Heq _]; subst.
  set (E := embedding_of
              (roberta_normal_encoder sentence token preprocessor backbone))
    in *.
  destruct (normal_encoder_embedding_unit _ _ D q HD Hwq Heq) as [Lq Uq].
  fold E in Lq, Uq.
  rewrite (matmul_transpose_dots D) in H.
  - cbn [map] in H. injection H as <-.
    split; [rewrite !length_map; reflexivity|].
    rewrite Forall_forall in Hs, Hws.
    split.
    + apply Forall_forall. intros x Hx. rewrite map_map in Hx.
      apply in_map_iff in Hx. destruct Hx as (s & <- & Hin).
      destruct (normal_encoder_embedding_unit _ _ D s HD (Hws s Hin)
                  (Hs s Hin)) as [Ls Us].
      fold E in Ls, Us.
      apply dot_unit_bounds; [congruence|exact Uq|exact Us].
    + intros i Hi. rewrite map_map.
      rewrite (map_nth_error _ _ _ Hi). f_equal. exact Uq.
  - exact HD.
  - apply Forall_forall. intros v Hv. apply in_map_iff in Hv.
    destruct Hv as (s & <- & Hin).
    rewrite Forall_forall in Hs, Hws.
    apply (Hws s Hin). apply (Hs s Hin).
Qed.

Lemma given_search_e1 :
  semantic_search given_normal_encoder [sentence_e2; sentence_e1]
                  [sentence_e1] = Ok [0; 1].
Proof.
  unfold semantic_search. cbn [mapM].
  rewrite given_normal_encoder_e1, given_normal_encoder_e2. cbn [bind].
  unfold tf.matmul, tf.dot, tf.reduce_sum.
  cbn [tf.transpose tf.map2 map fold_right].
  repeat f_equal; ring.
Qed.

Lemma semantic_search_scores_witness :
  length [0; 1] = 2%nat /\
  Forall (fun x => -1 <= x <= 1) [0; 1] /\
  forall i, nth_error [sentence_e2; sentence_e1] i = Some sentence_e1 ->
            nth_error [0; 1] i = Some 1.
Proof.
  apply (semantic_search_scores given_preprocessor given_backbone 2
           [sentence_e2; sentence_e1] sentence_e1 [0; 1]).
  - lia.
  - repeat constructor;
      first [apply given_width_e1 | apply given_width_e2].
  - apply given_search_e1.
Defined.

(** ** Edge cases of the normalization *)

Lemma dot_zeros (e : vec) : Forall (fun x => x = 0) e -> tf.dot e e = 0.
Proof.
  rewrite dot_self_squares. unfold tf.reduce_sum.
  induction 1 as [|x e Hx _ IH]; cbn [map fold_right]; [reflexivity|].
  rewrite IH, Hx. ring.
Qed.

(** The regression encoder fails on a sentence whose pooled embedding is
    the zero vector: the normalization divides by a zero norm. *)
Theorem normal_encoder_zero_embedding {sentence token : Type}
        (preprocessor : sentence -> features token)
        (backbone : features token -> tensor2) (s : sentence) (e : vec) :
  GlobalAveragePooling1D (backbone (preprocessor s))
                         (padding_mask (preprocessor s)) = Ok e ->
  e <> [] -> Forall (fun x => x = 0) e ->
  roberta_normal_encoder sentence token preprocessor backbone s
    = Err DivisionByZero.
Proof.
  intros He Hne Hz. unfold roberta_normal_encoder. rewrite He. cbn [bind].
  unfold normalize. rewrite <- dot_self_squares, (dot_zeros e Hz), sqrt_0.
  rewrite divide_scalar_zero by exact Hne. reflexivity.
Qed.

Lemma normal_encoder_zero_embedding_witness :
  roberta_normal_encoder _ _ given_preprocessor given_backbone
    [([0; 0], true)] = Err DivisionByZero.
Proof.
  apply (normal_encoder_zero_embedding given_preprocessor given_backbone
           [([0; 0], true)] [0; 0]).
  - apply pooling_single_token.
  - discriminate.
  - repeat constructor.
Defined.

Lemma nonzero_scaled (c : R) (x : vec) :
  c <> 0 -> nonzero x -> nonzero (map (Rmult c) x).
Proof.
  intros Hc. unfold nonzero. induction 1 as [a x Ha|a x _ IH]; cbn [map].
  - apply Exists_cons_hd. apply Rmult_integral_contrapositive.
    split; assumption.
  - apply Exists_cons_tl, IH.
Qed.

Lemma euclidean_norm_scaled (c : R) (x : vec) :
  0 <= c -> euclidean_norm (map (Rmult c) x) = c * euclidean_norm x.
Proof.
  intros Hc. unfold euclidean_norm.
  assert (E : tf.dot (map (Rmult c) x) (map (Rmult c) x)
              = (c * c) * tf.dot x x).
  { unfold tf.dot, tf.reduce_sum.
    induction x as [|a x IH]; cbn [map tf.map2 fold_right]; [ring|].
    rewrite IH. ring. }
  rewrite E, sqrt_mult_alt by (apply Rmult_le_pos; exact Hc).
  rewrite sqrt_square by exact Hc. reflexivity.
Qed.

(** The normalization does not see the length of its input: scaling a
    nonzero vector by a positive factor gives the same normalized vector,
    and the returned norm is scaled by the factor. *)
Theorem normalize_scale_invariant (c : R) (x : vec) :
  0 < c -> nonzero x ->
  exists n,
    normalize x = Ok (n, euclidean_norm x) /\
    normalize (map (Rmult c) x) = Ok (n, c * euclidean_norm x).
Proof.
  intros Hc Hx. pose proof (euclidean_norm_pos x Hx) as Hpos.
  exists (map (fun xi => xi / euclidean_norm x) x).
  split; [apply normalize_nonzero; exact Hx|].
  rewrite normalize_nonzero by (apply nonzero_scaled; [lra|exact Hx]).
  rewrite euclidean_norm_scaled by lra.
  rewrite map_map. do 2 f_equal. apply map_ext. intros a. field. lra.
Qed.

Lemma normalize_scale_invariant_witness :
  exists n,
    normalize [3; 4] = Ok (n, euclidean_norm [3; 4]) /\
    normalize (map (Rmult 2) [3; 4]) = Ok (n, 2 * euclidean_norm [3; 4]).
Proof.
  apply (normalize_scale_invariant 2 [3; 4]).
  - lra.
  - apply Exists_cons_hd. lra.
Defined.

(** ** Invariance and bounds of the pooling *)

Lemma non_padded_app_padding (h pad : tensor2) (mask : list bool) :
  length mask = length h ->
  non_padded (h ++ pad) (mask ++ repeat false (length pad)) =
  non_padded h mask.
Proof.
  unfold non_padded. revert h; induction mask as [|b mask IH];
    intros [|row h] Hlen; try discriminate.
  - cbn [app]. induction pad as [|p pad IHp]; [reflexivity|].
    cbn [length repeat combine filter fst]. exact IHp.
  - injection Hlen as Hlen. cbn [app combine filter fst].
    destruct b; cbn [map snd]; rewrite (IH h Hlen); reflexivity.
Qed.

Lemma count_true_app_padding (mask : list bool) (k : nat) :
  count_true (mask ++ repeat false k) = count_true mask.
Proof.
  unfold count_true. rewrite filter_app, length_app.
  induction k as [|k IH]; cbn [repeat filter length] in *; lia.
Qed.

(** Padding a sentence further does not change its embedding: appending
    padded positions to the hidden states and to the mask leaves the
    pooled vector as it is. *)
Theorem pooling_ignores_extra_padding (D : nat) (h pad : tensor2)
        (mask : list bool) :
  Forall (fun row => length row = D) h ->
  Forall (fun row => length row = D) pad ->
  length mask = length h ->
  (1 <= count_true mask)%nat ->
  GlobalAveragePooling1D (h ++ pad) (mask ++ repeat false (length pad)) =
  GlobalAveragePooling1D h mask.
Proof.
  intros Hh Hpad Hlen Hk.
  rewrite (pooling_is_mean D h mask Hh Hlen Hk).
  rewrite (pooling_is_mean D).
  - rewrite non_padded_app_padding by exact Hlen. reflexivity.
  - apply Forall_app. split; assumption.
  - rewrite !length_app, repeat_length, Hlen. reflexivity.
  - rewrite count_true_app_padding. exact Hk.
Qed.

Lemma pooling_ignores_extra_padding_witness :
  GlobalAveragePooling1D ([[1; 2]; [3; 4]] ++ [[9; 9]; [7; 7]])
                         ([true; true] ++ repeat false 2) =
  GlobalAveragePooling1D [[1; 2]; [3; 4]] [true; true].
Proof.
  apply (pooling_ignores_extra_padding 2 [[1; 2]; [3; 4]] [[9; 9]; [7; 7]]
           [true; true]).
  - repeat constructor.
  - repeat constructor.
  - reflexivity.
  - cbn. lia.
Defined.

Lemma reduce_sum_bounds (lo hi : R) (v : vec) :
  Forall (fun x => lo <= x <= hi) v ->
  INR (length v) * lo <= tf.reduce_sum v <= INR (length v) * hi.
Proof.
  unfold tf.reduce_sum. induction 1 as [|x v Hx _ IH].
  - cbn. lra.
  - cbn [fold_right]. change (length (x :: v)) with (S (length v)).
    rewrite S_INR. lra.
Qed.

Lemma non_padded_incl (h : tensor2) (mask : list bool) (v : vec) :
  In v (non_padded h mask) -> In v h.
Proof.
  unfold non_padded. intros H. apply in_map_iff in H.
  destruct H as ([b row] & <- & Hin). apply filter_In in Hin.
  destruct Hin as [Hin _]. apply in_combine_r in Hin. exact Hin.
Qed.

(** The pooled embedding stays within the range of the hidden values it
    averages: when every value of every non-padded hidden vector lies
    between [lo] and [hi], so does every element of the embedding, which
    has the width of the hidden vectors. *)
Theorem pooling_within_range (D : nat) (h : tensor2) (mask : list bool)
        (lo hi : R) :
  Forall (fun row => length row = D) h ->
  length mask = length h ->
  (1 <= count_true mask)%nat ->
  Forall (Forall (fun x => lo <= x <= hi)) (non_padded h mask) ->
  exists e,
    GlobalAveragePooling1D h mask = Ok e /\
    length e = D /\
    Forall (fun x => lo <= x <= hi) e.
Proof.
  intros Hrect Hlen Hk Hrange.
  exists (arithmetic_mean D (non_padded h mask)).
  split; [apply pooling_is_mean; assumption|].
  unfold arithmetic_mean.
  split; [rewrite length_map; apply length_seq|].
  apply Forall_forall. intros x Hx. apply in_map_iff in Hx.
  destruct Hx as (j & <- & Hj). apply in_seq in Hj.
  assert (Hcol : Forall (fun x => lo <= x <= hi)
                        (map (fun v => nth j v 0) (non_padded h mask))).
  { rewrite Forall_map. rewrite Forall_forall in Hrange, Hrect.
    apply Forall_forall. intros v Hv.
    pose proof (Hrange v Hv) as Hvr. rewrite Forall_forall in Hvr.
    apply Hvr. apply nth_In.
    rewrite (Hrect v (non_padded_incl h mask v Hv)). lia. }
  apply reduce_sum_bounds in Hcol. rewrite length_map in Hcol.
  pose proof (non_padded_length h mask Hlen) as Hnp.
  unfold vec, tensor2 in *. rewrite Hnp in *.
  assert (Hpos : 0 < INR (count_true mask)) by (apply lt_0_INR; lia).
  split.
  - apply Rmult_le_reg_r with (INR (count_true mask)); [exact Hpos|].
    unfold Rdiv. rewrite Rmult_assoc, Rinv_l by lra. lra.
  - apply Rmult_le_reg_r with (INR (count_true mask)); [exact Hpos|].
    unfold Rdiv. rewrite Rmult_assoc, Rinv_l by lra. lra.
Qed.

Lemma pooling_within_range_witness :
  exists e,
    GlobalAveragePooling1D [[1; 2]; [3; 4]; [100; 200]] [true; true; false]
      = Ok e /\
    length e = 2%nat /\
    Forall (fun x => 1 <= x <= 4) e.
Proof.
  apply (pooling_within_range 2 [[1; 2]; [3; 4]; [100; 200]]
           [true; true; false] 1 4).
  - repeat constructor.
  - reflexivity.
  - cbn. lia.
  - repeat constructor; lra.
Defined.

(** ** The validation split and the data loaders *)

Lemma clip_index_reserve (len : nat) :
  Z.of_nat (clip_index (-10000) len) = Z.max 0 (Z.of_nat len - 10000).
Proof. unfold clip_index. cbn [Z.ltb Z.compare]. lia. Qed.

Lemma combine_firstn_both {X Y : Type} (k : nat) (x : list X) (y : list Y) :
  combine (firstn k x) (firstn k y) = firstn k (combine x y).
Proof.
  revert x y; induction k as [|k IH]; intros [|a x] [|b y]; try reflexivity.
  cbn [firstn combine]. f_equal. apply IH.
Qed.

Lemma combine_skipn_both {X Y : Type} (k : nat) (x : list X) (y : list Y) :
  combine (skipn k x) (skipn k y) = skipn k (combine x y).
Proof.
  revert x y; induction k as [|k IH]; intros [|a x] [|b y]; try reflexivity.
  - cbn [skipn combine]. destruct (skipn k x); reflexivity.
  - cbn [skipn combine]. apply IH.
Qed.

(** Reserving the validation samples splits the data in two without
    losing or repeating a sample: the training part followed by the
    validation part is the data, the validation part holds the last
    10000 samples (all of them when there are fewer), inputs and targets
    are cut at the same place, and both datasets can be built. *)
Theorem reserve_validation_partition {X Y : Type} (x : list X) (y : list Y) :
  length x = length y ->
  let '((x_train, y_train), (x_val, y_val)) := reserve_validation x y in
  x_train ++ x_val = x /\ y_train ++ y_val = y /\
  Z.of_nat (length x_val) = Z.min 10000 (Z.of_nat (length x)) /\
  exists train_dataset val_dataset,
    TensorDataset x_train y_train = Ok train_dataset /\
    TensorDataset x_val y_val = Ok val_dataset /\
    train_dataset ++ val_dataset = combine x y.
Proof.
  intros Hlen. unfold reserve_validation, slice_from, slice_to.
  rewrite <- Hlen. pose proof (clip_index_reserve (length x)) as Hk.
  set (k := clip_index (-10000) (length x)) in *.
  split; [apply firstn_skipn|]. split; [apply firstn_skipn|].
  split; [rewrite length_skipn; lia|].
  unfold TensorDataset.
  rewrite !length_firstn, !length_skipn, <- Hlen, !Nat.eqb_refl.
  eexists _, _. split; [reflexivity|]. split; [reflexivity|].
  rewrite combine_firstn_both, combine_skipn_both. apply firstn_skipn.
Qed.

Lemma reserve_validation_partition_witness :
  let '((x_train, y_train), (x_val, y_val)) :=
    reserve_validation [1%nat; 2%nat; 3%nat] [true; false; true] in
  x_train ++ x_val = [1%nat; 2%nat; 3%nat] /\
  y_train ++ y_val = [true; false; true] /\
  Z.of_nat (length x_val) = Z.min 10000 (Z.of_nat 3) /\
  exists train_dataset val_dataset,
    TensorDataset x_train y_train = Ok train_dataset /\
    TensorDataset x_val y_val = Ok val_dataset /\
    train_dataset ++ val_dataset =
      combine [1%nat; 2%nat; 3%nat] [true; false; true].
Proof.
  apply (reserve_validation_partition [1%nat; 2%nat; 3%nat]
                                      [true; false; true]).
  reflexivity.
Defined.

(** A dataset of tensors with different numbers of rows is refused. *)
Lemma TensorDataset_mismatch {X Y : Type} (x : list X) (y : list Y) :
  length x <> length y -> TensorDataset x y = Err ShapeError.
Proof.
  intros H. unfold TensorDataset.
  destruct (Nat.eqb_spec (length x) (length y)); [contradiction|reflexivity].
Qed.

Lemma combine_fst_snd {X Y : Type} (l : list (X * Y)) :
  combine (map fst l) (map snd l) = l.
Proof.
  induction l as [|[a b] l IH]; [reflexivity|].
  cbn [map combine fst snd]. f_equal. exact IH.
Qed.

Lemma batch_concat_fst {X Y : Type} (n : nat) (l : list (X * Y)) :
  (1 <= n)%nat -> concat (map fst (batch n l)) = map fst l.
Proof.
  intros Hn. rewrite map_fst_batch, concat_map_map.
  rewrite chunks_fuel_concat by (try exact Hn; apply le_n). reflexivity.
Qed.

Lemma batch_concat_snd {X Y : Type} (n : nat) (l : list (X * Y)) :
  (1 <= n)%nat -> concat (map snd (batch n l)) = map snd l.
Proof.
  intros Hn. rewrite map_snd_batch, concat_map_map.
  rewrite chunks_fuel_concat by (try exact Hn; apply le_n). reflexivity.
Qed.

(** One pass over a data loader visits every sample of the dataset
    exactly once: with a sampler that rearranges the dataset, the inputs
    and targets of the batches, put end to end and paired again, are a
    rearrangement of the dataset (the dataset itself without shuffling);
    every batch holds between 1 and [batch_size] inputs, with as many
    targets. *)
Theorem DataLoader_one_pass {X Y : Type}
        (sampler : list (X * Y) -> list (X * Y)) (dataset : list (X * Y))
        (batch_size : nat) :
  (1 <= batch_size)%nat ->
  Permutation (sampler dataset) dataset ->
  Permutation
    (combine (concat (map fst (DataLoader sampler dataset batch_size)))
             (concat (map snd (DataLoader sampler dataset batch_size))))
    dataset /\
  combine (concat (map fst (DataLoader sequential dataset batch_size)))
          (concat (map snd (DataLoader sequential dataset batch_size)))
    = dataset /\
  Forall (fun b => (1 <= length (fst b) <= batch_size)%nat /\
                   length (snd b) = length (fst b))
         (DataLoader sampler dataset batch_size).
Proof.
  intros Hb Hperm. unfold DataLoader, sequential.
  rewrite !batch_concat_fst, !batch_concat_snd by exact Hb.
  rewrite !combine_fst_snd.
  split; [exact Hperm|]. split; [reflexivity|].
  apply Forall_forall. intros b Hin.
  rewrite <- (firstn_all (batch batch_size (sampler dataset))) in Hin.
  apply In_batch_chunk in Hin. destruct Hin as (c & Hc & ->).
  pose proof (chunks_fuel_sizes (length (sampler dataset)) batch_size
                                (sampler dataset) Hb) as Hsz.
  rewrite Forall_forall in Hsz. specialize (Hsz c Hc).
  rewrite length_fst_split, length_snd_split. split; [exact Hsz|reflexivity].
Qed.

Lemma DataLoader_one_pass_witness :
  Permutation
    (combine (concat (map fst (DataLoader (@rev (nat * bool))
                                 [(1%nat, true); (2%nat, false);
                                  (3%nat, true)] 2)))
             (concat (map snd (DataLoader (@rev (nat * bool))
                                 [(1%nat, true); (2%nat, false);
                                  (3%nat, true)] 2))))
    [(1%nat, true); (2%nat, false); (3%nat, true)].
Proof.
  apply (DataLoader_one_pass (@rev (nat * bool))
           [(1%nat, true); (2%nat, false); (3%nat, true)] 2).
  - lia.
  - apply Permutation_sym, Permutation_rev.
Defined.

(** The number of samples in the first [step + 1] batches of a loader is
    [(step + 1) * batch_size] capped by the size of the dataset: the
    "seen so far" count the loop prints is the true count as long as the
    batches so far are full, and more than the true count once a last,
    shorter batch is among them. *)
Theorem seen_so_far_count {X Y : Type}
        (sampler : list (X * Y) -> list (X * Y)) (dataset : list (X * Y))
        (step : nat) :
  length (sampler dataset) = length dataset ->
  samples_in (step + 1) (DataLoader sampler dataset torch_batch_size) =
  Nat.min ((step + 1) * torch_batch_size) (length dataset).
Proof.
  intros Hlen. unfold samples_in, DataLoader.
  rewrite batch_firstn_fst by (unfold torch_batch_size; lia).
  rewrite length_firstn, length_map, Hlen. reflexivity.
Qed.

Lemma seen_so_far_count_witness :
  samples_in (1 + 1)
    (DataLoader sequential (repeat (0%nat, true) 40) torch_batch_size) =
  Nat.min ((1 + 1) * torch_batch_size) (length (repeat (0%nat, true) 40)).
Proof.
  apply (seen_so_far_count sequential (repeat (0%nat, true) 40) 1).
  reflexivity.
Defined.

(** ** The training loop and its log *)

Section TrainingLoopProperties.

Variables state batch_data : Type.
Variable train_step : state -> batch_data -> state * R.

Lemma run_from (first : nat) (batches : list batch_data) (st : state)
      (out : list log_line) :
  fold_left (loop_body train_step)
            (combine (seq first (length batches)) batches) (st, out) =
  (steps_state train_step batches st,
   out ++ log_of first (steps_losses train_step batches st)).
Proof.
  revert first st out; induction batches as [|b batches IH];
    intros first st out.
  - cbn. rewrite app_nil_r. reflexivity.
  - cbn [length seq combine fold_left steps_state steps_losses log_of].
    unfold loop_body at 2. destruct (train_step st b) as [st' loss] eqn:E.
    cbn [fst snd].
    destruct (first mod 100 =? 0)%nat; rewrite IH.
    + rewrite <- app_assoc. reflexivity.
    + reflexivity.
Qed.

Lemma log_of_length (first : nat) (losses : list R) :
  (length (log_of first losses) + 2 * ((first + 99) / 100) =
   2 * ((first + length losses + 99) / 100))%nat.
Proof.
  revert first; induction losses as [|loss losses IH]; intros first.
  - cbn [log_of length]. rewrite Nat.add_0_r. reflexivity.
  - cbn [log_of length]. rewrite length_app.
    specialize (IH (S first)).
    replace (first + S (length losses) + 99)%nat
      with (S first + length losses + 99)%nat by lia.
    pose proof (Nat.div_mod_eq first 100).
    pose proof (Nat.div_mod_eq (S first + 99) 100).
    pose proof (Nat.div_mod_eq (first + 99) 100).
    pose proof (Nat.mod_upper_bound (S first + 99) 100 ltac:(lia)).
    pose proof (Nat.mod_upper_bound (first + 99) 100 ltac:(lia)).
    pose proof (Nat.mod_upper_bound first 100 ltac:(lia)).
    destruct (first mod 100 =? 0)%nat eqn:E.
    + apply Nat.eqb_eq in E. cbn [length]. lia.
    + apply Nat.eqb_neq in E. cbn [length]. lia.
Qed.

Lemma steps_losses_length (batches : list batch_data) (st : state) :
  length (steps_losses train_step batches st) = length batches.
Proof.
  revert st; induction batches as [|b batches IH]; intros st;
    [reflexivity|].
  cbn [steps_losses length]. f_equal. apply IH.
Qed.

Lemma steps_state_app (b1 b2 : list batch_data) (st : state) :
  steps_state train_step (b1 ++ b2) st =
  steps_state train_step b2 (steps_state train_step b1 st).
Proof. unfold steps_state. apply fold_left_app. Qed.

Lemma run_epoch_state_out (train_dataloader : list batch_data) (st : state)
      (out : list log_line) :
  exists out',
    run_epoch train_step train_dataloader (st, out) =
    (steps_state train_step train_dataloader st, out').
Proof.
  eexists. unfold run_epoch, enumerate. apply run_from.
Qed.

(** One pass of the loop leaves the state that the plain sequence of
    training steps over the batches gives, whatever is logged; it logs
    the loss and the "seen so far" count at the steps 0, 100, 200, ...
    and nowhere else, which makes two lines for every started hundred of
    batches. *)
Theorem run_epoch_log (train_dataloader : list batch_data) (st : state)
        (out : list log_line) :
  run_epoch train_step train_dataloader (st, out) =
    (steps_state train_step train_dataloader st,
     out ++ log_of 0 (steps_losses train_step train_dataloader st)) /\
  length (log_of 0 (steps_losses train_step train_dataloader st)) =
    (2 * ((length train_dataloader + 99) / 100))%nat.
Proof.
  split.
  - unfold run_epoch, enumerate. apply run_from.
  - pose proof (log_of_length 0
                  (steps_losses train_step train_dataloader st)) as H.
    rewrite steps_losses_length in H. cbn [Nat.add] in H.
    change (99 / 100)%nat with 0%nat in H. lia.
Qed.

(** Over all the epochs, the state after training is the state of the
    plain sequence of training steps over the batches of epoch 0, then
    of epoch 1, and so on: every batch of every epoch is used for exactly
    one update, in order. *)
Theorem run_epochs_state (train_dataloader : nat -> list batch_data)
        (epoch n : nat) (st : state) (out : list log_line) :
  fst (run_epochs train_step train_dataloader epoch n (st, out)) =
  steps_state train_step (concat (map train_dataloader (seq epoch n))) st.
Proof.
  revert epoch st out; induction n as [|n IH]; intros epoch st out.
  - reflexivity.
  - cbn [run_epochs seq map concat].
    destruct (run_epoch_state_out (train_dataloader epoch) st out)
      as (out' & ->).
    rewrite IH, steps_state_app. reflexivity.
Qed.

End TrainingLoopProperties.

(** ** Instances of the properties of the regression model *)

Lemma RegressionSiamese_own_score_witness :
  exists scores row,
    RegressionSiamese given_encoder [([1; 0], [0; 1]); ([0; 1], [0; 1])]
      = Ok scores /\
    length scores = 2%nat /\
    nth_error scores 1 = Some row /\
    length row = 2%nat /\
    nth_error row 1 = Some (tf.dot [0; 1] [0; 1]).
Proof.
  apply (RegressionSiamese_own_score given_encoder (fun s => s) 2
           [([1; 0], [0; 1]); ([0; 1], [0; 1])] 1 [0; 1] [0; 1]).
  - lia.
  - repeat constructor.
  - reflexivity.
Defined.

Lemma RegressionSiamese_swapped_witness :
  RegressionSiamese given_encoder
    (map swap_pair [([1; 0], [0; 1]); ([0; 1], [0; 1])]) =
  Ok (map (fun p : vec * vec =>
             map (fun q : vec * vec => tf.dot (fst q) (snd p))
                 [([1; 0], [0; 1]); ([0; 1], [0; 1])])
          [([1; 0], [0; 1]); ([0; 1], [0; 1])]).
Proof.
  apply (RegressionSiamese_swapped given_encoder (fun s => s) 2
           [([1; 0], [0; 1]); ([0; 1], [0; 1])]).
  - lia.
  - repeat constructor.
Defined.

Lemma RegressionSiamese_single_pair_witness :
  RegressionSiamese given_encoder [([3; 4], [1; 2])]
    = Ok [[tf.dot [3; 4] [1; 2]]] /\
  RegressionSiamese given_encoder [swap_pair ([3; 4], [1; 2])] =
  RegressionSiamese given_encoder [([3; 4], [1; 2])].
Proof.
  apply (RegressionSiamese_single_pair given_encoder [3; 4] [1; 2]
                                       [3; 4] [1; 2]).
  - reflexivity.
  - reflexivity.
  - discriminate.
  - reflexivity.
Defined.
